(** * MCPShell, package [common]: [ConvertStringToType]

    A shallow embedding of [pkg/common/types.go].  The package has one
    function, [ConvertStringToType], which turns a command-line string into
    a typed value according to a declared parameter type.  It leans on four
    functions of Go's standard library: [strconv.ParseFloat],
    [strconv.ParseInt], [strings.ToLower] and [fmt.Errorf].  Those are
    embedded here as well, as far as the function exercises them.

    Conventions.
    - A Go [string] is a sequence of bytes: Rocq's [string], whose
      characters are the 256 values of [ascii].
    - A byte is read as a [Z] in [0, 256) through [byte]; [uint64]
      arithmetic is written on [Z] with its wrap-around modulo [2^64].
    - Go's [int] (indices, digit counts, decimal exponents) is [Z]: these
      counters are bounded by the length of the string and never wrap.
    - [float64] is [SpecFloat.spec_float] at precision 53 and [emax] 1024.
    - [(interface{}, error)] is a pair of options, [None] standing for [nil]. *)

From Stdlib Require Import ZArith List String Ascii Bool Lia.
From Stdlib Require Import Floats.SpecFloat.
Import ListNotations.

Local Open Scope string_scope.
Local Open Scope Z_scope.

(** ** Bytes and strings *)

Definition byte (c : ascii) : Z := Z.of_N (N_of_ascii c).

(** [len(s)] *)
Definition len (s : string) : Z := Z.of_nat (String.length s).

(** [s[:n]] *)
Definition slice_to (n : Z) (s : string) : string := substring 0 (Z.to_nat n) s.

(** [c] lies in the closed byte range [lo .. hi]. *)
Definition between (lo hi c : ascii) : bool :=
  (byte lo <=? byte c) && (byte c <=? byte hi).

Definition isDigit (c : ascii) : bool := between "0" "9" c.

(** Go's [switch x { case a, b, c: ... }] on strings. *)
Fixpoint oneOf (x : string) (cases : list string) : bool :=
  match cases with
  | [] => false
  | c :: cases' => String.eqb x c || oneOf x cases'
  end.

(** ** Library tables that are not part of the repository

    Two library functions depend on the Unicode tables of Go's [unicode]
    package (case mapping and printability).  The tables are data, not
    code of this package; they are taken as parameters.  Everything proved
    below holds for every choice of them. *)
Class Unicode : Type := {
  (** [strconv.Quote(s)]: the string as a double-quoted Go literal. *)
  Quote : string -> string;
  (** [strings.Map(unicode.ToLower, s)], the path [strings.ToLower] takes
      for a string that holds a byte [>= utf8.RuneSelf]. *)
  MapToLower : string -> string
}.

(** ** Errors

    The three dynamic types of [error] this package can return. *)
Inductive error : Type :=
| errorString (s : string)                     (* *errors.errorString *)
| NumError (Func Num : string) (Err : error)   (* *strconv.NumError *)
| wrapError (msg : string) (err : error).      (* *fmt.wrapError *)

(** The [Error()] method. *)
Fixpoint Error `{U : Unicode} (e : error) : string :=
  match e with
  | errorString s => s
  | NumError Func Num Err =>
      "strconv." ++ Func ++ ": parsing " ++ Quote Num ++ ": " ++ Error Err
  | wrapError msg _ => msg
  end.

(** Comparison of two error values ([err == ErrRange]). *)
Fixpoint error_eqb (e1 e2 : error) : bool :=
  match e1, e2 with
  | errorString s1, errorString s2 => String.eqb s1 s2
  | NumError f1 n1 x1, NumError f2 n2 x2 =>
      String.eqb f1 f2 && String.eqb n1 n2 && error_eqb x1 x2
  | wrapError m1 x1, wrapError m2 x2 => String.eqb m1 m2 && error_eqb x1 x2
  | _, _ => false
  end.

(** [errors.Unwrap] *)
Definition Unwrap (e : error) : option error :=
  match e with
  | wrapError _ err => Some err
  | _ => None
  end.

(** ** Package [strings] *)
Module strings.

Definition RuneSelf : Z := 128.

(** The first loop of [ToLower]: it stops at the first byte that is not
    ASCII, and records whether an upper-case letter was seen before. *)
Fixpoint scanASCII (s : string) (hasUpper : bool) : bool * bool :=
  match s with
  | "" => (true, hasUpper)
  | String c s' =>
      if RuneSelf <=? byte c then (false, hasUpper)
      else scanASCII s' (hasUpper || between "A" "Z" c)
  end.

(** [c += 'a' - 'A'] for an upper-case ASCII letter. *)
Definition lowerByte (c : ascii) : ascii :=
  if between "A" "Z" c
  then ascii_of_N (Z.to_N ((byte c + (byte "a" - byte "A")) mod 256))
  else c.

(** The second loop: copies [s], replacing each upper-case letter. *)
Fixpoint lowerASCII (s : string) : string :=
  match s with
  | "" => ""
  | String c s' => String (lowerByte c) (lowerASCII s')
  end.

Definition ToLower `{U : Unicode} (s : string) : string :=
  let '(isASCII, hasUpper) := scanASCII s false in
  if isASCII then
    if negb hasUpper then s else lowerASCII s
  else MapToLower s.

End strings.

(** ** Package [strconv]: integers *)
Module strconv.

Definition ErrRange : error := errorString "value out of range".
Definition ErrSyntax : error := errorString "invalid syntax".

Definition syntaxError (fn str : string) : error := NumError fn str ErrSyntax.
Definition rangeError (fn str : string) : error := NumError fn str ErrRange.

(** [lower(c)] is [c | ('x' - 'X')]. *)
Definition lower (c : ascii) : Z := Z.lor (byte c) (byte "x" - byte "X").

Definition maxUint64 : Z := 2 ^ 64 - 1.
Definition uint64 (x : Z) : Z := x mod 2 ^ 64.
Definition int64 (x : Z) : Z := (x + 2 ^ 63) mod 2 ^ 64 - 2 ^ 63.

(** [ParseUint] and [ParseInt] at the base and size this package asks
    for.  With [base = 10] the prefix and underscore handling of base 0
    is skipped, and the checks of [base] and [bitSize] pass. *)
Section Base10.
Let base : Z := 10.
Let bitSize : Z := 64.

(** The digit loop of [ParseUint]; [n] is the value so far.  A
    character that is no digit of the base is a syntax error; a value
    that no longer fits is a range error, reported at once with
    [maxVal]. *)
Fixpoint parseUintLoop (s0 : string) (cutoff maxVal : Z)
                       (s : string) (n : Z) : Z * option error :=
  match s with
  | "" => (n, None)
  | String c s' =>
      let digit :=
        if isDigit c then Some (byte c - byte "0")
        else if (byte "a" <=? lower c) && (lower c <=? byte "z")
             then Some (lower c - byte "a" + 10)
             else None in
      match digit with
      | None => (0, Some (syntaxError "ParseUint" s0))
      | Some d =>
          if base <=? d then (0, Some (syntaxError "ParseUint" s0))
          else if cutoff <=? n then (maxVal, Some (rangeError "ParseUint" s0))
          else
            let n := uint64 (n * base) in
            let n1 := uint64 (n + d) in
            if (n1 <? n) || (maxVal <? n1)
            then (maxVal, Some (rangeError "ParseUint" s0))
            else parseUintLoop s0 cutoff maxVal s' n1
      end
  end.

Definition ParseUint (s : string) : Z * option error :=
  if String.eqb s "" then (0, Some (syntaxError "ParseUint" s))
  else
    let cutoff := maxUint64 / 10 + 1 in
    let maxVal := uint64 (uint64 (Z.shiftl 1 bitSize) - 1) in
    parseUintLoop s cutoff maxVal s 0.

Definition ParseInt (s : string) : Z * option error :=
  match s with
  | "" => (0, Some (syntaxError "ParseInt" s))
  | String c rest =>
      let s0 := s in
      (* Pick off leading sign. *)
      let '(neg, s) :=
        if Ascii.eqb c "+" then (false, rest)
        else if Ascii.eqb c "-" then (true, rest)
        else (false, s) in
      (* Convert unsigned and check range. *)
      let '(un, err) := ParseUint s in
      let checkRange :=
        let cutoff := Z.shiftl 1 (bitSize - 1) in
        if negb neg && (cutoff <=? un)
        then (cutoff - 1, Some (rangeError "ParseInt" s0))
        else if neg && (cutoff <? un)
        then (- cutoff, Some (rangeError "ParseInt" s0))
        else
          let n := int64 un in
          (if neg then int64 (- n) else n, None) in
      match err with
      | Some (NumError _ _ Err) =>
          if negb (error_eqb Err ErrRange)
          then (0, Some (NumError "ParseInt" s0 Err))
          else checkRange
      | _ => checkRange
      end
  end.
End Base10.

(** *** Floating point: the scanner

    [float64] values are IEEE 754 binary64 numbers. *)
Definition float64 : Type := spec_float.
Definition prec : Z := 53.
Definition emax : Z := 1024.

(** [math.Inf(sign)] and [math.NaN()] *)
Definition Inf (sign : Z) : float64 := S754_infinity (sign <? 0).
Definition NaN : float64 := S754_nan.

Definition isInf (f : float64) : bool :=
  match f with S754_infinity _ => true | _ => false end.

Fixpoint commonPrefixLenIgnoreCase (s prefix : string) : Z :=
  match s, prefix with
  | String c s', String p prefix' =>
      let c := if between "A" "Z" c
               then byte c + (byte "a" - byte "A") else byte c in
      if c =? byte p then 1 + commonPrefixLenIgnoreCase s' prefix' else 0
  | _, _ => 0
  end.

(** [special]: the longest prefix of [s] that spells an infinity or
    NaN, with the number of bytes it takes. *)
Definition special (s : string) : option (float64 * Z) :=
  match s with
  | "" => None
  | String c rest =>
      let infinity (sign nsign : Z) (s : string) :=
        let n := commonPrefixLenIgnoreCase s "infinity" in
        (* Anything longer than "inf" is ok, but without the whole of
           "infinity" only "inf" is consumed. *)
        let n := if (3 <? n) && (n <? 8) then 3 else n in
        if (n =? 3) || (n =? 8) then Some (Inf sign, nsign + n) else None in
      if Ascii.eqb c "+" then infinity 1 1 rest
      else if Ascii.eqb c "-" then infinity (-1) 1 rest
      else if Ascii.eqb c "i" || Ascii.eqb c "I" then infinity 1 0 s
      else if Ascii.eqb c "n" || Ascii.eqb c "N" then
        if commonPrefixLenIgnoreCase s "nan" =? 3 then Some (NaN, 3) else None
      else None
  end.

(** The loop of [underscoreOK]; [saw] is the kind of the previous
    character: ["0"] a digit or base prefix, ["_"] an underscore,
    ["!"] anything else, ["^"] the start. *)
Fixpoint underscoreLoop (hex : bool) (s : string) (saw : ascii) : bool :=
  match s with
  | "" => negb (Ascii.eqb saw "_")
  | String c s' =>
      if isDigit c
         || (hex && (byte "a" <=? lower c) && (lower c <=? byte "f"))
      then underscoreLoop hex s' "0"
      else if Ascii.eqb c "_" then
        if negb (Ascii.eqb saw "0") then false
        else underscoreLoop hex s' "_"
      else if Ascii.eqb saw "_" then false
      else underscoreLoop hex s' "!"
  end.

(** [underscoreOK]: underscores only between digits, or between a base
    prefix and a digit. *)
Definition underscoreOK (s : string) : bool :=
  (* Optional sign. *)
  let s := match s with
           | String c s' =>
               if Ascii.eqb c "-" || Ascii.eqb c "+" then s' else s
           | "" => s
           end in
  (* Optional base prefix. *)
  match s with
  | String c0 (String c1 s') =>
      if Ascii.eqb c0 "0"
         && ((lower c1 =? byte "b") || (lower c1 =? byte "o")
             || (lower c1 =? byte "x"))
      then underscoreLoop (lower c1 =? byte "x") s' "0"
      else underscoreLoop false s "^"
  | _ => underscoreLoop false s "^"
  end.

(** The local variables of [readFloat]'s digit loop. *)
Record scan : Type := Scan {
  mantissa : Z;       (* uint64 *)
  nd : Z;
  ndMant : Z;
  dp : Z;
  sawdot : bool;
  sawdigits : bool;
  trunc : bool;
  underscores : bool
}.

Definition scan0 : scan := Scan 0 0 0 0 false false false false.

(** One more digit [d] of the mantissa: kept while fewer than
    [maxMantDigits] are held, otherwise dropped, and [trunc] records a
    dropped digit that [lost] says was not zero. *)
Definition addDigit (base maxMantDigits d : Z) (lost : bool) (st : scan) : scan :=
  if ndMant st <? maxMantDigits
  then Scan (uint64 (uint64 (mantissa st * base) + d)) (nd st + 1)
            (ndMant st + 1) (dp st) (sawdot st) true (trunc st)
            (underscores st)
  else Scan (mantissa st) (nd st + 1) (ndMant st) (dp st) (sawdot st) true
            (trunc st || lost) (underscores st).

(** The digit loop, from index [i] on; it returns the index it stopped
    at and the rest of the string from there. *)
Fixpoint digitLoop (base maxMantDigits : Z) (s : string) (i : Z) (st : scan)
  : scan * Z * string :=
  match s with
  | "" => (st, i, s)
  | String c s' =>
      if Ascii.eqb c "_" then
        digitLoop base maxMantDigits s' (i + 1)
          (Scan (mantissa st) (nd st) (ndMant st) (dp st) (sawdot st)
                (sawdigits st) (trunc st) true)
      else if Ascii.eqb c "." then
        if sawdot st then (st, i, s)
        else digitLoop base maxMantDigits s' (i + 1)
               (Scan (mantissa st) (nd st) (ndMant st) (nd st) true
                     (sawdigits st) (trunc st) (underscores st))
      else if isDigit c then
        if Ascii.eqb c "0" && (nd st =? 0) then
          (* ignore leading zeros *)
          digitLoop base maxMantDigits s' (i + 1)
            (Scan (mantissa st) (nd st) (ndMant st) (dp st - 1) (sawdot st)
                  true (trunc st) (underscores st))
        else
          digitLoop base maxMantDigits s' (i + 1)
            (addDigit base maxMantDigits (byte c - byte "0")
                      (negb (Ascii.eqb c "0")) st)
      else if (base =? 16) && (byte "a" <=? lower c) && (lower c <=? byte "f")
      then
        digitLoop base maxMantDigits s' (i + 1)
          (addDigit 16 maxMantDigits (lower c - byte "a" + 10) true st)
      else (st, i, s)
  end.

(** The digits of the exponent; [e] stops growing at 10000. *)
Fixpoint exponentLoop (s : string) (i e : Z) (underscores : bool)
  : Z * Z * bool :=
  match s with
  | "" => (i, e, underscores)
  | String c s' =>
      if isDigit c || Ascii.eqb c "_" then
        if Ascii.eqb c "_" then exponentLoop s' (i + 1) e true
        else exponentLoop s' (i + 1)
               (if e <? 10000 then e * 10 + byte c - byte "0" else e)
               underscores
      else (i, e, underscores)
  end.

(** [readFloat] reads a decimal or hexadecimal mantissa and exponent
    from a float string representation in [s[0:n]].  It returns
    [(mantissa, exp, neg, trunc, hex, i, ok)]; on failure the named
    results keep what they held at the [return].  The function is cut
    in three at the comments of its source: sign, digits, exponent. *)

(** "optional exponent moves decimal point", and the checks after it.
    [st] is the state the digit loop ended in, at index [i] with [r]
    left to read. *)
Definition readExponent (s : string) (base expChar : Z) (neg hex : bool)
                        (st : scan) (i : Z) (r : string)
  : Z * Z * bool * bool * bool * Z * bool :=
  let dp := if sawdot st then dp st else nd st in
  let '(dp, ndMant) :=
    if base =? 16 then (dp * 4, ndMant st * 4) else (dp, ndMant st) in
  let finish (i dp : Z) (underscores : bool) :=
    let exp := if negb (mantissa st =? 0) then dp - ndMant else 0 in
    if underscores && negb (underscoreOK (slice_to i s))
    then (mantissa st, exp, neg, trunc st, hex, i, false)
    else (mantissa st, exp, neg, trunc st, hex, i, true) in
  let failed (i : Z) := (mantissa st, 0, neg, trunc st, hex, i, false) in
  match r with
  | String c r1 =>
      if lower c =? expChar then
        let i := i + 1 in
        match r1 with
        | "" => failed i
        | String c1 r2 =>
            let '(esign, i, r1) :=
              if Ascii.eqb c1 "+" then (1, i + 1, r2)
              else if Ascii.eqb c1 "-" then (-1, i + 1, r2)
              else (1, i, r1) in
            match r1 with
            | "" => failed i
            | String c2 _ =>
                if negb (isDigit c2) then failed i
                else
                  let '(i, e, underscores) :=
                    exponentLoop r1 i 0 (underscores st) in
                  finish i (dp + e * esign) underscores
            end
        end
      else if base =? 16 then failed i (* Must have exponent. *)
      else finish i dp (underscores st)
  | "" =>
      if base =? 16 then failed i
      else finish i dp (underscores st)
  end.

(** "digits": the base prefix and the mantissa, from index [i] with
    [r] left to read. *)
Definition readDigits (s : string) (neg : bool) (i : Z) (r : string)
  : Z * Z * bool * bool * bool * Z * bool :=
  let '(base, maxMantDigits, expChar, hex, i, r) :=
    match r with
    | String d0 (String d1 (String d2 r')) =>
        if Ascii.eqb d0 "0" && (lower d1 =? byte "x")
        then (16, 16, byte "p", true, i + 2, String d2 r')
        else (10, 19, byte "e", false, i, r)
    | _ => (10, 19, byte "e", false, i, r)
    end in
  let '(st, i, r) := digitLoop base maxMantDigits r i scan0 in
  if negb (sawdigits st) then (mantissa st, 0, neg, trunc st, hex, i, false)
  else readExponent s base expChar neg hex st i r.

Definition readFloat (s : string) : Z * Z * bool * bool * bool * Z * bool :=
  match s with
  | "" => (0, 0, false, false, false, 0, false)
  | String c0 s1 =>
      (* optional sign *)
      if Ascii.eqb c0 "+" then readDigits s false 1 s1
      else if Ascii.eqb c0 "-" then readDigits s true 1 s1
      else readDigits s false 0 s
  end.

(** *** Floating point: the value

    Once [readFloat] has accepted the text, [atof64] converts it.  Go
    tries exact float arithmetic and the Eisel-Lemire algorithm first, and
    falls back on a multi-precision decimal; all three give the float64
    nearest to the number written, ties to even, which is what
    [ParseFloat] documents.  The embedding takes the fallback, and
    computes the nearest float64 in exact integer arithmetic instead of
    following the shifts of [decimal.floatBits]. *)

(** [num / den] rounded to the nearest float64, ties to even, for
    positive [num] and [den]. *)
Definition nearest (neg : bool) (num den : Z) : float64 :=
  let '(q, e, l) := SFdiv_core_binary prec emax num 0 den 0 in
  binary_round_aux prec emax neg q e l.

(** [decimal]: up to 800 digits [d], read here as one number, a decimal
    point [dp] counted from the left of the digits, and [trunc] when
    non-zero digits beyond the 800 were dropped. *)
Record decimal : Type := Decimal {
  d : Z;
  d_nd : Z;
  d_dp : Z;
  d_neg : bool;
  d_trunc : bool
}.

(** The digit loop of [decimal.set]; it returns the rest of the string. *)
Fixpoint setDigits (s : string) (b : decimal) (sawdot sawdigits : bool)
  : decimal * bool * bool * string :=
  match s with
  | "" => (b, sawdot, sawdigits, s)
  | String c s' =>
      if Ascii.eqb c "_" then setDigits s' b sawdot sawdigits
      else if Ascii.eqb c "." then
        if sawdot then (b, sawdot, sawdigits, s)
        else setDigits s' (Decimal (d b) (d_nd b) (d_nd b) (d_neg b) (d_trunc b))
                       true sawdigits
      else if isDigit c then
        if Ascii.eqb c "0" && (d_nd b =? 0) then
          setDigits s' (Decimal (d b) (d_nd b) (d_dp b - 1) (d_neg b) (d_trunc b))
                    sawdot true
        else if d_nd b <? 800 then
          setDigits s' (Decimal (d b * 10 + (byte c - byte "0")) (d_nd b + 1)
                                (d_dp b) (d_neg b) (d_trunc b))
                    sawdot true
        else
          setDigits s' (Decimal (d b) (d_nd b) (d_dp b) (d_neg b)
                                (d_trunc b || negb (Ascii.eqb c "0")))
                    sawdot true
      else (b, sawdot, sawdigits, s)
  end.

(** [decimal.set]: [None] when it reports [ok = false].  [setDecimal]
    is the function after its sign; the whole text has to be read. *)
Definition setDecimal (neg : bool) (r : string) : option decimal :=
  let '(b, sawdot, sawdigits, r) :=
    setDigits r (Decimal 0 0 0 neg false) false false in
  if negb sawdigits then None
  else
    let b := if sawdot then b
             else Decimal (d b) (d_nd b) (d_nd b) (d_neg b) (d_trunc b) in
    match r with
    | "" => Some b
    | String c r1 =>
        if lower c =? byte "e" then
          match r1 with
          | "" => None
          | String c1 r2 =>
              let '(esign, r1) :=
                if Ascii.eqb c1 "+" then (1, r2)
                else if Ascii.eqb c1 "-" then (-1, r2)
                else (1, r1) in
              match r1 with
              | "" => None
              | String c2 _ =>
                  if negb (isDigit c2) then None
                  else
                    let '(i, e, _) := exponentLoop r1 0 0 false in
                    if i =? len r1
                    then Some (Decimal (d b) (d_nd b) (d_dp b + e * esign)
                                       (d_neg b) (d_trunc b))
                    else None
              end
          end
        else None
    end.

Definition decimal_set (s : string) : option decimal :=
  match s with
  | "" => None
  | String c0 s1 =>
      if Ascii.eqb c0 "+" then setDecimal false s1
      else if Ascii.eqb c0 "-" then setDecimal true s1
      else setDecimal false s
  end.

(** [decimal.floatBits]: the nearest float64, and whether it overflowed.
    The decimal stands for [0.d * 10^dp]; dropped digits make it a
    little larger, which only matters on a tie, and one more digit
    accounts for them. *)
Definition floatBits (b : decimal) : float64 * bool :=
  if d_nd b =? 0 then (S754_zero (d_neg b), false)       (* zero *)
  else if 310 <? d_dp b then (S754_infinity (d_neg b), true)
  else if d_dp b <? -330 then (S754_zero (d_neg b), false)
  else
    let '(m, e) := if d_trunc b then (d b * 10 + 1, d_dp b - d_nd b - 1)
                   else (d b, d_dp b - d_nd b) in
    let f := if 0 <=? e then nearest (d_neg b) (m * 10 ^ e) 1
             else nearest (d_neg b) m (10 ^ (- e)) in
    (f, isInf f).

(** [atofHex]: [mantissa * 2^exp], where [trunc] says that non-zero
    hexadecimal digits beyond the sixteenth were dropped; rounded to the
    nearest float64, ties to even.  A result beyond the largest float64
    is an infinity and a range error. *)
Definition atofHex (s : string) (mantissa exp : Z) (neg trunc : bool)
  : float64 * option error :=
  let f :=
    match mantissa with
    | Zpos m =>
        if trunc then binary_round_aux prec emax neg mantissa exp (loc_Inexact Lt)
        else binary_round prec emax neg m exp
    | _ => S754_zero neg
    end in
  (f, if isInf f then Some (rangeError "ParseFloat" s) else None).

Definition atof64 (s : string) : float64 * Z * option error :=
  match special s with
  | Some (val, n) => (val, n, None)
  | None =>
      let '(mantissa, exp, neg, trunc, hex, n, ok) := readFloat s in
      if negb ok then (S754_zero false, n, Some (syntaxError "ParseFloat" s))
      else if hex then
        let '(f, err) := atofHex (slice_to n s) mantissa exp neg trunc in
        (f, n, err)
      else
        (* Slow fallback. *)
        match decimal_set (slice_to n s) with
        | None => (S754_zero false, n, Some (syntaxError "ParseFloat" s))
        | Some b =>
            let '(f, ovf) := floatBits b in
            (f, n, if ovf then Some (rangeError "ParseFloat" s) else None)
        end
  end.

(** [ParseFloat(s, 64)]: the whole of [s] has to be consumed. *)
Definition ParseFloat (s : string) : float64 * option error :=
  let '(f, n, err) := atof64 s in
  let notSyntax :=
    match err with
    | None => true
    | Some (NumError _ _ Err) => negb (error_eqb Err ErrSyntax)
    | Some _ => true
    end in
  if negb (n =? len s) && notSyntax
  then (S754_zero false, Some (syntaxError "ParseFloat" s))
  else (f, err).

End strconv.

(** ** Package [fmt]: [Errorf]

    The formats of this package are plain text with the verbs [%s] and
    [%w], applied to a string and to an error.  [doPrintf] is embedded for
    formats made of plain text, [%%] and the verbs [%s], [%v] and [%w]
    without flags, widths or argument indices.  Under [%s] and [%v] a
    string prints as it is and an error prints its [Error()]; [%w] does the
    same for an error.  A string under any other verb prints as Go reports
    a bad verb, [%!verb(string=value)].  The verbs [%q] and [%x], and an
    error under a verb other than [s], [v], [w], are outside the
    embedding. *)
Module fmt.

(** The dynamic types of the arguments this package passes. *)
Inductive operand : Type :=
| str (s : string)
| err (e : error).

Definition isVerb (v : ascii) (verbs : string) : bool :=
  existsb (Ascii.eqb v) (list_ascii_of_string verbs).

(** [%!verb(string=value)] *)
Definition badVerb (verb : ascii) (s : string) : string :=
  "%!" ++ String verb "(" ++ "string=" ++ s ++ ")".

Definition printArg `{U : Unicode} (verb : ascii) (a : operand) : string :=
  match a with
  | str s => if isVerb verb "sv" then s else badVerb verb s
  | err e => Error e
  end.

Fixpoint doPrintf `{U : Unicode} (format : string) (a : list operand) : string :=
  match format with
  | "" => ""
  | String c rest =>
      if Ascii.eqb c "%" then
        match rest with
        | "" => "%!(NOVERB)"
        | String verb rest' =>
            if Ascii.eqb verb "%" then String "%" (doPrintf rest' a)
            else
              match a with
              | [] => "%!" ++ String verb "(MISSING)" ++ doPrintf rest' []
              | x :: a' => printArg verb x ++ doPrintf rest' a'
              end
        end
      else String c (doPrintf rest a)
  end.

(** The operands that a [%w] verb wraps, in order. *)
Fixpoint wrappedErrs (format : string) (a : list operand) : list error :=
  match format with
  | "" => []
  | String c rest =>
      if Ascii.eqb c "%" then
        match rest with
        | "" => []
        | String verb rest' =>
            if Ascii.eqb verb "%" then wrappedErrs rest' a
            else
              match a with
              | [] => []
              | err e :: a' =>
                  if Ascii.eqb verb "w" then e :: wrappedErrs rest' a'
                  else wrappedErrs rest' a'
              | _ :: a' => wrappedErrs rest' a'
              end
        end
      else wrappedErrs rest a
  end.

(** [Errorf]: an [errorString] when nothing is wrapped, a [wrapError]
    around the operand of [%w] otherwise (no format of this package has
    two [%w]). *)
Definition Errorf `{U : Unicode} (format : string) (a : list operand) : error :=
  let s := doPrintf format a in
  match wrappedErrs format a with
  | [] => errorString s
  | e :: _ => wrapError s e
  end.

End fmt.

(** ** Package [common] *)

(** The dynamic types of the [interface{}] that [ConvertStringToType]
    returns. *)
Inductive any : Type :=
| of_string (s : string)
| of_float64 (f : strconv.float64)
| of_int64 (i : Z)
| of_bool (b : bool).

(** [(interface{}, error)] *)
Definition result : Type := option any * option error.

(** [ConvertStringToType] converts a string value to the appropriate type
    based on the parameter type. *)
Definition ConvertStringToType `{U : Unicode} (value paramType : string) : result :=
  (* Default to string if type is not specified *)
  let paramType := if String.eqb paramType "" then "string" else paramType in
  if String.eqb paramType "string" then
    (Some (of_string value), None)
  else if String.eqb paramType "number" then
    (* Try to parse as float64 *)
    let '(floatVal, err) := strconv.ParseFloat value in
    match err with
    | Some err =>
        (None, Some (fmt.Errorf "failed to parse '%s' as number: %w"
                                [fmt.str value; fmt.err err]))
    | None => (Some (of_float64 floatVal), None)
    end
  else if String.eqb paramType "integer" then
    (* Try to parse as int64 *)
    let '(intVal, err) := strconv.ParseInt value in
    match err with
    | Some err =>
        (None, Some (fmt.Errorf "failed to parse '%s' as integer: %w"
                                [fmt.str value; fmt.err err]))
    | None => (Some (of_int64 intVal), None)
    end
  else if String.eqb paramType "boolean" then
    (* Convert to lowercase for consistent comparison *)
    let lowerVal := strings.ToLower value in
    (* Check for various boolean representations *)
    if oneOf lowerVal ["true"; "t"; "yes"; "y"; "1"] then
      (Some (of_bool true), None)
    else if oneOf lowerVal ["false"; "f"; "no"; "n"; "0"] then
      (Some (of_bool false), None)
    else
      (None, Some (fmt.Errorf "failed to parse '%s' as boolean" [fmt.str value]))
  else
    (None, Some (fmt.Errorf "unsupported parameter type: %s" [fmt.str paramType])).

(** The same function as a relation, one rule per [return] statement of
    the source; [effective] is [paramType] after the default is applied. *)
Definition effective (paramType : string) : string :=
  if String.eqb paramType "" then "string" else paramType.


(** ** The vocabulary of the specification *)

(** [hay] contains [needle] as a contiguous piece. *)
Definition embeds (needle hay : string) : Prop :=
  exists pre post, hay = pre ++ needle ++ post.

(** The specification's two kinds of failure.  The code has no error
    types of its own: the kinds are told apart by the message. *)
Definition ConversionError `{U : Unicode} (value : string) (e : error) : Prop :=
  exists kind detail,
    In kind ["number"; "integer"; "boolean"] /\
    Error e = "failed to parse '" ++ value ++ "' as " ++ kind ++ detail.

Definition UnsupportedTypeError `{U : Unicode} (paramType : string) (e : error) : Prop :=
  Error e = "unsupported parameter type: " ++ paramType.

(** The boolean tokens. *)
Definition truthy : list string := ["true"; "t"; "yes"; "y"; "1"].
Definition falsy : list string := ["false"; "f"; "no"; "n"; "0"].

(** [value] holds ASCII bytes only. *)
Definition isASCII (value : string) : bool :=
  forallb (fun c => byte c <? 128) (list_ascii_of_string value).

(** [value] is [token] up to the case of its ASCII letters, over its
    whole length ([token] is in lower case). *)
Fixpoint matchesIgnoringCase (value token : string) : bool :=
  match value, token with
  | "", "" => true
  | String c value', String t token' =>
      (Ascii.eqb c t || (between "A" "Z" c && (byte c + 32 =? byte t)))
      && matchesIgnoringCase value' token'
  | _, _ => false
  end.

(** Decimal and exponential notation, as the specification has it for
    [number]: an optional sign, digits with an optional fraction (at least
    one digit on one side of the point), and an optional exponent [e] or
    [E] with an optional sign and at least one digit. *)
Fixpoint digitRun (s : string) : nat * string :=
  match s with
  | "" => (O, s)
  | String c s' =>
      if isDigit c then let '(n, r) := digitRun s' in (S n, r) else (O, s)
  end.

Definition dropSign (s : string) : string :=
  match s with
  | "" => s
  | String c s' => if Ascii.eqb c "+" || Ascii.eqb c "-" then s' else s
  end.

(** The exponent, or nothing. *)
Definition exponentPart (r : string) : bool :=
  match r with
  | "" => true
  | String c r' =>
      (Ascii.eqb c "e" || Ascii.eqb c "E")
      && (let '(n3, r'') := digitRun (dropSign r') in
          negb (Nat.eqb n3 0) && String.eqb r'' "")
  end.

(** Digits, an optional fraction, an optional exponent. *)
Definition unsignedLiteral (s : string) : bool :=
  let '(n1, r) := digitRun s in
  let '(n2, r) :=
    match r with
    | "" => (O, r)
    | String c r' => if Ascii.eqb c "." then digitRun r' else (O, r)
    end in
  negb (Nat.eqb (n1 + n2) 0) && exponentPart r.

Definition decimalFloatLiteral (s : string) : bool :=
  unsignedLiteral (dropSign s).

(** A base-10 integer, as the specification has it for [integer]: an
    optional sign and at least one decimal digit; [None] for any other
    string, the number it denotes otherwise. *)
Fixpoint decimalValue (s : string) (acc : Z) : option Z :=
  match s with
  | "" => Some acc
  | String c s' =>
      if isDigit c then decimalValue s' (acc * 10 + (byte c - byte "0"))
      else None
  end.

Definition unsignedInteger (s : string) : option Z :=
  match s with
  | "" => None
  | _ => decimalValue s 0
  end.

Definition base10Integer (s : string) : option Z :=
  match s with
  | "" => None
  | String c rest =>
      if Ascii.eqb c "+" then unsignedInteger rest
      else if Ascii.eqb c "-" then option_map Z.opp (unsignedInteger rest)
      else unsignedInteger s
  end.

Definition minInt64 : Z := - 2 ^ 63.
Definition maxInt64 : Z := 2 ^ 63 - 1.

(** ** Definitions that serve the proofs *)

(** What [ParseInt] does once the sign is taken off. *)
Definition afterSign (s0 : string) (neg : bool) (s : string) : Z * option error :=
  let '(un, err) := strconv.ParseUint s in
  let checkRange :=
    let cutoff := Z.shiftl 1 (64 - 1) in
    if negb neg && (cutoff <=? un)
    then (cutoff - 1, Some (strconv.rangeError "ParseInt" s0))
    else if neg && (cutoff <? un)
    then (- cutoff, Some (strconv.rangeError "ParseInt" s0))
    else
      let n := strconv.int64 un in
      (if neg then strconv.int64 (- n) else n, None) in
  match err with
  | Some (NumError _ _ Err) =>
      if negb (error_eqb Err strconv.ErrRange)
      then (0, Some (NumError "ParseInt" s0 Err))
      else checkRange
  | _ => checkRange
  end.

(** The part of the scanner's state that decides acceptance. *)
Definition sameFlags (st st' : strconv.scan) (digits : bool) : Prop :=
  strconv.sawdot st' = strconv.sawdot st /\ strconv.underscores st' = strconv.underscores st
  /\ strconv.sawdigits st' = strconv.sawdigits st || digits.

(** [token] has no capital ASCII letter. *)
Definition lowerCaseText (token : string) : bool :=
  forallb (fun t => negb (between "A" "Z" t)) (list_ascii_of_string token).

(** *** Running the function

    Tables that agree with Go's on printable ASCII text without quotes or
    backslashes: such text is quoted by putting it between double quotes,
    and it never reaches [MapToLower].  They serve to run the function on
    such inputs. *)
Definition doubleQuote : string := String (ascii_of_nat 34) "".

Definition asciiTables : Unicode :=
  {| Quote := fun s => doubleQuote ++ s ++ doubleQuote;
     MapToLower := fun s => s |}.

(** Splits a conjunction into its parts, and nothing else. *)
Ltac conjuncts := repeat match goal with |- _ /\ _ => split end.

(** ** Vocabulary for the further properties *)

(** [s] is made of decimal digits only. *)
Definition allDigits (s : string) : bool :=
  forallb isDigit (list_ascii_of_string s).

(** A non-empty string of decimal digits. *)
Definition digitString (s : string) : bool :=
  negb (String.eqb s "") && allDigits s.

(** The number that the leading digits of [s] spell, continuing [acc]; it
    stops at the first byte that is no digit. *)
Fixpoint prefixValue (s : string) (acc : Z) : Z :=
  match s with
  | "" => acc
  | String c s' =>
      if isDigit c then prefixValue s' (acc * 10 + (byte c - byte "0"))
      else acc
  end.

(** The three ways a conversion to an integer ends. *)
Inductive integerOutcome : Type :=
| IntegerOk (n : Z)
| IntegerRange
| IntegerSyntax.

(** The outcome read off the text: [u] is the text after an optional
    sign.  Digits that already pass [2^64 - 1] are out of range, whatever
    follows them; otherwise a byte that is no digit is bad syntax;
    otherwise the signed number has to fit an int64. *)
Definition integerOutcomeOf (value : string) : integerOutcome :=
  let u := dropSign value in
  let neg := match value with
             | String c _ => Ascii.eqb c "-"
             | "" => false
             end in
  if String.eqb u "" then IntegerSyntax
  else if strconv.maxUint64 <? prefixValue u 0 then IntegerRange
  else if negb (allDigits u) then IntegerSyntax
  else
    let n := if neg then - prefixValue u 0 else prefixValue u 0 in
    if (minInt64 <=? n) && (n <=? maxInt64) then IntegerOk n else IntegerRange.


(** Two ASCII texts that differ at most in the case of their letters. *)
Definition sameLetter (a b : ascii) : bool :=
  Ascii.eqb a b
  || (between "A" "Z" a && (byte a + 32 =? byte b))
  || (between "A" "Z" b && (byte b + 32 =? byte a)).

Fixpoint equalFold (a b : string) : bool :=
  match a, b with
  | "", "" => true
  | String x a', String y b' => sameLetter x y && equalFold a' b'
  | _, _ => false
  end.


(** The texts that spell an infinity -- [inf] or [infinity] in any letter
    case, after an optional sign -- and a NaN -- [nan] in any letter case,
    without a sign. *)
Definition spellsInfinity (s : string) : bool :=
  matchesIgnoringCase (dropSign s) "inf"
  || matchesIgnoringCase (dropSign s) "infinity".

Definition spellsNaN (s : string) : bool := matchesIgnoringCase s "nan".

(** The text starts with a minus sign. *)
Definition startsWithMinus (s : string) : bool :=
  match s with
  | String c _ => Ascii.eqb c "-"
  | "" => false
  end.


(** What [decimal.set] keeps while it reads digits without dropping any:
    [d] has exactly [d_nd] digits, the first of them not zero. *)
Definition decimalExact (b : strconv.decimal) : Prop :=
  strconv.d_trunc b = false
  /\ ((strconv.d_nd b = 0 /\ strconv.d b = 0)
      \/ (0 < strconv.d_nd b
          /\ 10 ^ (strconv.d_nd b - 1) <= strconv.d b < 10 ^ strconv.d_nd b)).


(** The bytes that can occur in a text [ParseFloat] accepts: digits,
    signs, the point, the underscore, and the letters of hexadecimal
    digits, of the markers [x], [p], [e] and of [infinity] and [nan], in
    either case. *)
Definition numberByte (c : ascii) : bool :=
  isDigit c
  || existsb (Ascii.eqb c) (list_ascii_of_string "+-._")
  || existsb (Ascii.eqb (strings.lowerByte c))
             (list_ascii_of_string "abcdefinptxy").

Definition allNumberBytes (s : string) : bool :=
  forallb numberByte (list_ascii_of_string s).

(** ASCII white space. *)
Definition whitespace (c : ascii) : bool :=
  existsb (fun w => byte c =? w) [32; 9; 10; 13].

(** [s] holds the byte [c]. *)
Definition holds (c : ascii) (s : string) : bool :=
  existsb (Ascii.eqb c) (list_ascii_of_string s).

(** Reading [r] from index [i] stops at index [i'] with [r'] left, and
    the bytes read are number bytes. *)
Definition consumesTo (r : string) (i : Z) (r' : string) (i' : Z) : Prop :=
  exists c, r = c ++ r' /\ i' = i + len c /\ allNumberBytes c = true.

Definition consumes (r : string) (i i' : Z) : Prop :=
  exists r', consumesTo r i r' i'.

(** The index among the results of [readFloat]. *)
Definition indexOf (t : Z * Z * bool * bool * bool * Z * bool) : Z :=
  snd (fst t).


(** ** Proofs *)

Lemma append_nil_r (s : string) : s ++ "" = s.
Proof. induction s as [|c s IH]; simpl; [reflexivity | now rewrite IH]. Qed.

Lemma effective_other (paramType : string) :
  paramType <> "" -> effective paramType = paramType.
Proof.
  intros Hne. unfold effective.
  destruct (String.eqb_spec paramType ""); [contradiction | reflexivity].
Qed.

Section Conversion.
Context `{U : Unicode}.

(** *** The three messages *)

Lemma Errorf_wrap_number (value : string) (e : error) :
  fmt.Errorf "failed to parse '%s' as number: %w" [fmt.str value; fmt.err e]
  = wrapError ("failed to parse '" ++ value ++ "' as number: " ++ Error e) e.
Proof.
  unfold fmt.Errorf. simpl. now rewrite append_nil_r.
Qed.

Lemma Errorf_wrap_integer (value : string) (e : error) :
  fmt.Errorf "failed to parse '%s' as integer: %w" [fmt.str value; fmt.err e]
  = wrapError ("failed to parse '" ++ value ++ "' as integer: " ++ Error e) e.
Proof.
  unfold fmt.Errorf. simpl. now rewrite append_nil_r.
Qed.


Lemma Errorf_unsupported (paramType : string) :
  fmt.Errorf "unsupported parameter type: %s" [fmt.str paramType]
  = errorString ("unsupported parameter type: " ++ paramType).
Proof.
  unfold fmt.Errorf. simpl. now rewrite append_nil_r.
Qed.

(** *** The function follows the switch *)

Lemma convert_string (value paramType : string) :
  effective paramType = "string" ->
  ConvertStringToType value paramType = (Some (of_string value), None).
Proof.
  intros E. unfold ConvertStringToType. fold (effective paramType).
  now rewrite E.
Qed.

Lemma convert_number (value paramType : string) :
  effective paramType = "number" ->
  ConvertStringToType value paramType =
  match strconv.ParseFloat value with
  | (_, Some err) =>
      (None, Some (wrapError ("failed to parse '" ++ value ++ "' as number: "
                              ++ Error err) err))
  | (floatVal, None) => (Some (of_float64 floatVal), None)
  end.
Proof.
  intros E. unfold ConvertStringToType. fold (effective paramType).
  rewrite E. cbn [String.eqb Ascii.eqb Bool.eqb].
  destruct (strconv.ParseFloat value) as [f [e|]]; [|reflexivity].
  now rewrite Errorf_wrap_number.
Qed.

Lemma convert_integer (value paramType : string) :
  effective paramType = "integer" ->
  ConvertStringToType value paramType =
  match strconv.ParseInt value with
  | (_, Some err) =>
      (None, Some (wrapError ("failed to parse '" ++ value ++ "' as integer: "
                              ++ Error err) err))
  | (intVal, None) => (Some (of_int64 intVal), None)
  end.
Proof.
  intros E. unfold ConvertStringToType. fold (effective paramType).
  rewrite E. cbn [String.eqb Ascii.eqb Bool.eqb].
  destruct (strconv.ParseInt value) as [n [e|]]; [|reflexivity].
  now rewrite Errorf_wrap_integer.
Qed.

Lemma convert_boolean (value paramType : string) :
  effective paramType = "boolean" ->
  ConvertStringToType value paramType =
  if oneOf (strings.ToLower value) truthy then (Some (of_bool true), None)
  else if oneOf (strings.ToLower value) falsy then (Some (of_bool false), None)
  else (None, Some (errorString ("failed to parse '" ++ value ++ "' as boolean"))).
Proof.
  intros E. unfold ConvertStringToType. fold (effective paramType).
  rewrite E. cbn [String.eqb Ascii.eqb Bool.eqb]. reflexivity.
Qed.

Lemma convert_unsupported (value paramType : string) :
  oneOf (effective paramType) ["string"; "number"; "integer"; "boolean"] = false ->
  ConvertStringToType value paramType =
  (None, Some (errorString ("unsupported parameter type: " ++ effective paramType))).
Proof.
  intros E. unfold ConvertStringToType. fold (effective paramType).
  cbn [oneOf] in E.
  repeat (apply orb_false_iff in E; destruct E as [?E E]).
  rewrite E0, E1, E2, E3. now rewrite Errorf_unsupported.
Qed.

End Conversion.

(** *** Integers: [ParseInt] against the base-10 reading *)

Lemma isDigit_value (c : ascii) :
  isDigit c = true -> 0 <= byte c - byte "0" <= 9.
Proof.
  unfold isDigit, between. change (byte "0") with 48. change (byte "9") with 57.
  intros B. apply andb_true_iff in B. lia.
Qed.

Lemma decimalValue_grows (s : string) :
  forall acc v, 0 <= acc -> decimalValue s acc = Some v -> acc <= v.
Proof.
  induction s as [|c s IH]; simpl; intros acc v Hacc E.
  - now inversion E.
  - destruct (isDigit c) eqn:D; [|discriminate].
    apply isDigit_value in D. apply IH in E; lia.
Qed.

Lemma unsignedInteger_nonneg (s : string) (v : Z) :
  unsignedInteger s = Some v -> 0 <= v.
Proof.
  destruct s as [|c s]; [discriminate|].
  change (unsignedInteger (String c s)) with (decimalValue (String c s) 0).
  now apply decimalValue_grows.
Qed.

Section IntegerParsing.
Import strconv.

Let cutoff : Z := maxUint64 / 10 + 1.
Let maxVal : Z := uint64 (uint64 (Z.shiftl 1 64) - 1).

Lemma parseUintLoop_spec (s0 s : string) :
  forall n, 0 <= n <= maxUint64 ->
  match decimalValue s n with
  | Some v =>
      parseUintLoop s0 cutoff maxVal s n =
      if v <=? maxUint64 then (v, None)
      else (maxUint64, Some (rangeError "ParseUint" s0))
  | None =>
      parseUintLoop s0 cutoff maxVal s n = (0, Some (syntaxError "ParseUint" s0))
      \/ parseUintLoop s0 cutoff maxVal s n
         = (maxUint64, Some (rangeError "ParseUint" s0))
  end.
Proof.
  change maxVal with maxUint64. change cutoff with 1844674407370955162.
  induction s as [|c s IH]; intros n Hn.
  - simpl. destruct (Z.leb_spec n maxUint64); [reflexivity | lia].
  - cbn [decimalValue parseUintLoop].
    destruct (isDigit c) eqn:D.
    + pose proof (isDigit_value c D) as Hd.
      set (d := byte c - byte "0") in *.
      destruct (Z.leb_spec 10 d) as [|_]; [lia|].
      destruct (Z.leb_spec 1844674407370955162 n) as [Hc|Hc].
      * (* n * 10 no longer fits *)
        destruct (decimalValue s (n * 10 + d)) as [v|] eqn:E; [|now right].
        apply decimalValue_grows in E; [|lia].
        destruct (Z.leb_spec v maxUint64) as [Hv|_]; [|reflexivity].
        unfold maxUint64 in Hv. lia.
      * assert (E10 : uint64 (n * 10) = n * 10).
        { unfold uint64. apply Z.mod_small. lia. }
        rewrite E10.
        destruct (Z.lt_ge_cases (n * 10 + d) (2 ^ 64)) as [Hfit|Hover].
        -- assert (E1 : uint64 (n * 10 + d) = n * 10 + d).
           { unfold uint64. apply Z.mod_small. lia. }
           rewrite E1.
           destruct (Z.ltb_spec (n * 10 + d) (n * 10)) as [|_]; [lia|].
           destruct (Z.ltb_spec maxUint64 (n * 10 + d)) as [Hm|_].
           { unfold maxUint64 in Hm. lia. }
           cbn [orb]. apply IH. unfold maxUint64. lia.
        -- assert (E1 : uint64 (n * 10 + d) = n * 10 + d - 2 ^ 64).
           { unfold uint64. symmetry. apply (Z.mod_unique _ _ 1); lia. }
           rewrite E1.
           destruct (Z.ltb_spec (n * 10 + d - 2 ^ 64) (n * 10)) as [_|]; [|lia].
           cbn [orb].
           destruct (decimalValue s (n * 10 + d)) as [v|] eqn:E; [|now right].
           apply decimalValue_grows in E; [|lia].
           destruct (Z.leb_spec v maxUint64) as [Hv|_]; [|reflexivity].
           unfold maxUint64 in Hv. lia.
    + left.
      destruct ((byte "a" <=? lower c) && (lower c <=? byte "z")) eqn:L;
        [|reflexivity].
      apply andb_true_iff in L. destruct L as [L _].
      destruct (Z.leb_spec 10 (lower c - byte "a" + 10)) as [_|]; [reflexivity|].
      apply Z.leb_le in L. lia.
Qed.

Lemma ParseUint_spec (s : string) :
  match unsignedInteger s with
  | Some v =>
      ParseUint s = if v <=? maxUint64 then (v, None)
                    else (maxUint64, Some (rangeError "ParseUint" s))
  | None =>
      ParseUint s = (0, Some (syntaxError "ParseUint" s))
      \/ ParseUint s = (maxUint64, Some (rangeError "ParseUint" s))
  end.
Proof.
  destruct s as [|c s]; [now left|].
  unfold unsignedInteger, ParseUint.
  change (String.eqb (String c s) "") with false. cbv iota.
  apply (parseUintLoop_spec (String c s) (String c s) 0).
  unfold maxUint64. lia.
Qed.

Lemma ParseInt_afterSign (c : ascii) (rest : string) :
  ParseInt (String c rest) =
  if Ascii.eqb c "+" then afterSign (String c rest) false rest
  else if Ascii.eqb c "-" then afterSign (String c rest) true rest
  else afterSign (String c rest) false (String c rest).
Proof.
  unfold ParseInt, afterSign.
  destruct (Ascii.eqb c "+"); [reflexivity|].
  destruct (Ascii.eqb c "-"); reflexivity.
Qed.

Lemma int64_small (x : Z) : minInt64 <= x <= maxInt64 -> int64 x = x.
Proof.
  unfold int64, minInt64, maxInt64. intros B.
  rewrite Z.mod_small; lia.
Qed.

Lemma afterSign_spec (s0 : string) (neg : bool) (s : string) :
  match unsignedInteger s with
  | Some v =>
      let n := if neg then - v else v in
      afterSign s0 neg s =
      if (minInt64 <=? n) && (n <=? maxInt64) then (n, None)
      else (if neg then minInt64 else maxInt64, Some (rangeError "ParseInt" s0))
  | None =>
      afterSign s0 neg s = (0, Some (syntaxError "ParseInt" s0))
      \/ afterSign s0 neg s
         = (if neg then minInt64 else maxInt64, Some (rangeError "ParseInt" s0))
  end.
Proof.
  pose proof (ParseUint_spec s) as P. unfold afterSign.
  destruct (unsignedInteger s) as [v|] eqn:E.
  - pose proof (unsignedInteger_nonneg s v E) as Hv.
    rewrite P. cbv zeta.
    change (Z.shiftl 1 (64 - 1)) with (2 ^ 63).
    unfold minInt64, maxInt64, maxUint64 in *.
    destruct (Z.leb_spec v (2 ^ 64 - 1)) as [Hfit|Hover].
    + destruct neg; cbn [negb andb].
      * destruct (Z.ltb_spec (2 ^ 63) v) as [Hbig|Hok].
        -- destruct (Z.leb_spec (- 2 ^ 63) (- v)); [lia|]. reflexivity.
        -- destruct (Z.leb_spec (- 2 ^ 63) (- v)); [|lia].
           destruct (Z.leb_spec (- v) (2 ^ 63 - 1)); [|lia]. cbn [andb].
           f_equal.
           destruct (Z.eq_dec v (2 ^ 63)) as [->|Hne]; [reflexivity|].
           rewrite (int64_small v) by (unfold minInt64, maxInt64; lia).
           apply int64_small. unfold minInt64, maxInt64. lia.
      * destruct (Z.leb_spec (2 ^ 63) v) as [Hbig|Hok].
        -- destruct (Z.leb_spec (- 2 ^ 63) v); [|lia].
           destruct (Z.leb_spec v (2 ^ 63 - 1)); [lia|]. reflexivity.
        -- destruct (Z.leb_spec (- 2 ^ 63) v); [|lia].
           destruct (Z.leb_spec v (2 ^ 63 - 1)); [|lia]. cbn [andb].
           f_equal. apply int64_small. unfold minInt64, maxInt64. lia.
    + change (error_eqb ErrRange ErrRange) with true. cbn [negb].
      destruct neg; cbn [negb andb].
      * change (2 ^ 63 <? 2 ^ 64 - 1) with true. cbv iota.
        destruct (Z.leb_spec (- 2 ^ 63) (- v)); [lia|]. reflexivity.
      * change (2 ^ 63 <=? 2 ^ 64 - 1) with true. cbv iota.
        destruct (Z.leb_spec (- 2 ^ 63) v); [|lia].
        destruct (Z.leb_spec v (2 ^ 63 - 1)); [lia|]. reflexivity.
  - destruct P as [-> | ->].
    + left. reflexivity.
    + right. destruct neg; reflexivity.
Qed.

(** [ParseInt] returns the number a base-10 integer denotes when it
    fits an int64, and an error in every other case. *)
Lemma ParseInt_spec (value : string) :
  match base10Integer value with
  | Some n =>
      ParseInt value =
      if (minInt64 <=? n) && (n <=? maxInt64) then (n, None)
      else (if n <? 0 then minInt64 else maxInt64,
            Some (rangeError "ParseInt" value))
  | None =>
      exists r Err, ParseInt value = (r, Some (NumError "ParseInt" value Err))
  end.
Proof.
  destruct value as [|c rest].
  - simpl. now exists 0, ErrSyntax.
  - rewrite ParseInt_afterSign. unfold base10Integer.
    destruct (Ascii.eqb c "+").
    + pose proof (afterSign_spec (String c rest) false rest) as A.
      destruct (unsignedInteger rest) as [v|] eqn:E.
      * cbv zeta in A. rewrite A.
        destruct ((minInt64 <=? v) && (v <=? maxInt64)) eqn:B; [reflexivity|].
        destruct (Z.ltb_spec v 0) as [Hneg|]; [|reflexivity].
        apply unsignedInteger_nonneg in E. lia.
      * destruct A as [-> | ->];
          [exists 0, ErrSyntax | exists maxInt64, ErrRange]; reflexivity.
    + destruct (Ascii.eqb c "-").
      * pose proof (afterSign_spec (String c rest) true rest) as A.
        destruct (unsignedInteger rest) as [v|] eqn:E.
        -- cbv zeta in A. cbn [option_map]. rewrite A.
           destruct ((minInt64 <=? - v) && (- v <=? maxInt64)) eqn:B;
             [reflexivity|].
           destruct (Z.ltb_spec (- v) 0) as [|Hpos]; [reflexivity|].
           apply unsignedInteger_nonneg in E.
           apply andb_false_iff in B. unfold minInt64, maxInt64 in B.
           destruct B as [B|B]; [apply Z.leb_gt in B | apply Z.leb_gt in B]; lia.
        -- destruct A as [-> | ->]; cbn [option_map];
             [exists 0, ErrSyntax | exists minInt64, ErrRange]; reflexivity.
      * pose proof (afterSign_spec (String c rest) false (String c rest)) as A.
        destruct (unsignedInteger (String c rest)) as [v|] eqn:E.
        -- cbv zeta in A. rewrite A.
           destruct ((minInt64 <=? v) && (v <=? maxInt64)) eqn:B; [reflexivity|].
           destruct (Z.ltb_spec v 0) as [Hneg|]; [|reflexivity].
           apply unsignedInteger_nonneg in E. lia.
        -- destruct A as [-> | ->];
             [exists 0, ErrSyntax | exists maxInt64, ErrRange]; reflexivity.
Qed.

End IntegerParsing.

(** *** Numbers: decimal notation is accepted by [ParseFloat] *)

Lemma isDigit_not_underscore (c : ascii) :
  isDigit c = true -> Ascii.eqb c "_" = false /\ Ascii.eqb c "." = false.
Proof.
  intros D. split.
  - destruct (Ascii.eqb_spec c "_") as [->|]; [discriminate D | reflexivity].
  - destruct (Ascii.eqb_spec c ".") as [->|]; [discriminate D | reflexivity].
Qed.

Lemma len_String (c : ascii) (s : string) : len (String c s) = len s + 1.
Proof. unfold len. simpl String.length. lia. Qed.

Lemma slice_to_len (s : string) : slice_to (len s) s = s.
Proof.
  unfold slice_to, len. rewrite Nat2Z.id.
  induction s as [|c s IH]; simpl; [reflexivity | now rewrite IH].
Qed.

Lemma digitRun_length (s : string) :
  forall n r, digitRun s = (n, r) -> len s = Z.of_nat n + len r.
Proof.
  induction s as [|c s IH]; simpl; intros n r E.
  - inversion E. reflexivity.
  - destruct (isDigit c).
    + destruct (digitRun s) as [n' r'] eqn:E'. inversion E; subst.
      rewrite len_String, (IH n' r eq_refl). lia.
    + inversion E; subst. reflexivity.
Qed.

(** A letter [e] or [E], as the byte test of the scanner sees it. *)
Lemma lower_e (c : ascii) :
  Ascii.eqb c "e" || Ascii.eqb c "E" = true ->
  (strconv.lower c =? byte "e") = true /\ isDigit c = false
  /\ Ascii.eqb c "_" = false /\ Ascii.eqb c "." = false
  /\ (strconv.lower c =? byte "x") = false.
Proof.
  intros H. apply orb_true_iff in H.
  destruct H as [H|H]; apply Ascii.eqb_eq in H; subst; repeat split.
Qed.

Section FloatParsing.
Import strconv.

Lemma addDigit_flags (base m dgt : Z) (lost : bool) (st : scan) :
  sameFlags st (addDigit base m dgt lost st) true.
Proof.
  unfold sameFlags, addDigit. destruct (ndMant st <? m); simpl;
    rewrite orb_true_r; auto.
Qed.

(** Over a run of digits the digit loop moves on, keeps its flags and
    notes that it saw digits. *)
Lemma digitLoop_digitRun (s : string) :
  forall i st n r,
    digitRun s = (n, r) ->
    exists st',
      digitLoop 10 19 s i st = digitLoop 10 19 r (i + Z.of_nat n) st'
      /\ sameFlags st st' (negb (Nat.eqb n 0)).
Proof.
  induction s as [|c s IH]; intros i st n r E.
  - inversion E; subst. exists st. rewrite Z.add_0_r.
    unfold sameFlags. rewrite orb_false_r. auto.
  - cbn [digitRun] in E. destruct (isDigit c) eqn:D.
    + destruct (digitRun s) as [n' r'] eqn:E'. inversion E; subst.
      destruct (isDigit_not_underscore c D) as [N1 N2].
      cbn [digitLoop]. rewrite N1, N2, D.
      destruct (Ascii.eqb c "0" && (nd st =? 0)).
      * match goal with
        | |- context [digitLoop 10 19 s (i + 1) ?st1] =>
            destruct (IH (i + 1) st1 n' r eq_refl) as (st' & L & F1 & F2 & F3)
        end.
        exists st'. split.
        { rewrite L. f_equal. lia. }
        unfold sameFlags. simpl in F1, F2, F3. rewrite F1, F2, F3.
        simpl. repeat split. now rewrite orb_true_r.
      * match goal with
        | |- context [digitLoop 10 19 s (i + 1) ?st1] =>
            destruct (IH (i + 1) st1 n' r eq_refl) as (st' & L & F1 & F2 & F3)
        end.
        exists st'. split.
        { rewrite L. f_equal. lia. }
        destruct (addDigit_flags 10 19 (byte c - byte "0")
                    (negb (Ascii.eqb c "0")) st) as (G1 & G2 & G3).
        unfold sameFlags. rewrite F1, F2, F3, G1, G2, G3.
        simpl. rewrite !orb_true_r. auto.
    + inversion E; subst. exists st. rewrite Z.add_0_r.
      unfold sameFlags. rewrite orb_false_r. auto.
Qed.

(** The digits of an exponent are consumed to the end. *)
Lemma exponentLoop_digits (s : string) :
  forall i e u n,
    digitRun s = (n, "") ->
    exists e', exponentLoop s i e u = (i + len s, e', u).
Proof.
  induction s as [|c s IH]; intros i e u n E.
  - exists e. simpl. f_equal. f_equal. unfold len. simpl. lia.
  - cbn [digitRun] in E. destruct (isDigit c) eqn:D; [|discriminate].
    destruct (digitRun s) as [n' r'] eqn:E'. inversion E; subst.
    destruct (isDigit_not_underscore c D) as [N1 _].
    cbn [exponentLoop]. rewrite D, N1. cbn [orb].
    match goal with
    | |- context [exponentLoop s (i + 1) ?e1 u] =>
        destruct (IH (i + 1) e1 u n' eq_refl) as [e' L]
    end.
    exists e'. rewrite L, len_String.
    replace (i + 1 + len s) with (i + (len s + 1)) by lia. reflexivity.
Qed.

End FloatParsing.

Lemma digitRun_head (s : string) (n : nat) (r : string) :
  digitRun s = (n, r) -> n <> O ->
  exists c s', s = String c s' /\ isDigit c = true.
Proof.
  destruct s as [|c s']; simpl; intros E Hn.
  - inversion E. congruence.
  - destruct (isDigit c) eqn:D; [eauto|]. inversion E. congruence.
Qed.

Lemma unsignedLiteral_head (r : string) :
  unsignedLiteral r = true ->
  exists h t, r = String h t /\ (isDigit h = true \/ h = "."%char).
Proof.
  destruct r as [|h t]; [discriminate|]. intros L.
  exists h, t. split; [reflexivity|].
  destruct (isDigit h) eqn:D; [now left|]. right.
  unfold unsignedLiteral in L. cbn [digitRun] in L. rewrite D in L.
  destruct (Ascii.eqb_spec h "."); [assumption|]. discriminate L.
Qed.

(** The byte test for the hexadecimal prefix only fires on [x] and [X]. *)
Lemma lower_x (c : ascii) :
  (strconv.lower c =? byte "x") = true ->
  isDigit c = false /\ Ascii.eqb c "." = false
  /\ Ascii.eqb c "e" || Ascii.eqb c "E" = false.
Proof.
  destruct c as [[] [] [] [] [] [] [] []]; vm_compute; intros H;
    first [discriminate H | repeat split].
Qed.

Section FloatAcceptance.
Import strconv.

(** At an exponent, or at the end, the digit loop stops. *)
Lemma digitLoop_stops (r : string) (i : Z) (st : scan) :
  exponentPart r = true -> digitLoop 10 19 r i st = (st, i, r).
Proof.
  destruct r as [|c r']; [reflexivity|]. intros X.
  cbn [exponentPart] in X. apply andb_true_iff in X. destruct X as [X _].
  destruct (lower_e c X) as (_ & D & N1 & N2 & _).
  cbn [digitLoop]. now rewrite N1, N2, D.
Qed.

Lemma readExponent_accepts (s : string) (neg : bool) (st : scan) (i : Z)
      (r : string) :
  underscores st = false ->
  exponentPart r = true ->
  exists exp,
    readExponent s 10 (byte "e") neg false st i r
    = (mantissa st, exp, neg, trunc st, false, i + len r, true).
Proof.
  intros Hu X. unfold readExponent.
  change (10 =? 16) with false. cbv iota.
  destruct r as [|c r'].
  - rewrite Hu. cbn [andb]. change (len "") with 0. rewrite Z.add_0_r.
    eexists. reflexivity.
  - cbn [exponentPart] in X. apply andb_true_iff in X. destruct X as [Xe X].
    destruct (lower_e c Xe) as (Le & _). rewrite Le.
    destruct (digitRun (dropSign r')) as [n3 r''] eqn:E3.
    apply andb_true_iff in X. destruct X as [Xn Xr].
    apply negb_true_iff, Nat.eqb_neq in Xn.
    apply String.eqb_eq in Xr. subst r''.
    destruct (digitRun_head _ _ _ E3 Xn) as (c2 & t & Hd & D2).
    destruct r' as [|c1 r2]; [discriminate Hd|].
    cbn [dropSign] in Hd, E3.
    assert (exists e', exponentLoop (String c2 t) (i + 1 + (len (String c1 r2) - len (String c2 t))) 0 (underscores st)
                       = (i + len (String c (String c1 r2)), e', underscores st)) as [e' L].
    { rewrite Hd in E3.
      destruct (exponentLoop_digits _ (i + 1 + (len (String c1 r2) - len (String c2 t))) 0 (underscores st) _ E3) as [e' L].
      exists e'. rewrite L. rewrite (len_String c). f_equal. f_equal. lia. }
    destruct (Ascii.eqb c1 "+") eqn:P1; [|destruct (Ascii.eqb c1 "-") eqn:P2];
      cbn [orb] in Hd.
    + subst r2. rewrite D2. cbn [negb].
      rewrite len_String in L.
      replace (i + 1 + (len (String c2 t) + 1 - len (String c2 t))) with (i + 1 + 1) in L by lia.
      rewrite L, Hu. cbn [andb]. eexists. reflexivity.
    + subst r2. rewrite D2. cbn [negb].
      rewrite len_String in L.
      replace (i + 1 + (len (String c2 t) + 1 - len (String c2 t))) with (i + 1 + 1) in L by lia.
      rewrite L, Hu. cbn [andb]. eexists. reflexivity.
    + inversion Hd; subst c1 r2. rewrite D2. cbn [negb].
      replace (i + 1 + (len (String c2 t) - len (String c2 t))) with (i + 1) in L by lia.
      rewrite L, Hu. cbn [andb]. eexists. reflexivity.
Qed.

End FloatAcceptance.

Section FloatAcceptance2.
Import strconv.

(** Through the mantissa of a literal the digit loop reaches the
    exponent with digits seen and no underscore. *)
Lemma digitLoop_literal (r : string) (i : Z) :
  unsignedLiteral r = true ->
  exists st r2,
    digitLoop 10 19 r i scan0 = (st, i + (len r - len r2), r2)
    /\ sawdigits st = true /\ underscores st = false
    /\ exponentPart r2 = true.
Proof.
  unfold unsignedLiteral. intros L.
  destruct (digitRun r) as [n1 r1] eqn:E1.
  destruct (digitLoop_digitRun r i scan0 n1 r1 E1) as (st1 & L1 & F1 & F2 & F3).
  pose proof (digitRun_length r n1 r1 E1) as Len1.
  cbn [sawdot underscores sawdigits scan0 orb] in F1, F2, F3.
  destruct r1 as [|c r1'].
  - (* digits only *)
    rewrite Nat.add_0_r in L. apply andb_true_iff in L. destruct L as [L X].
    exists st1, "". rewrite L1. cbn [digitLoop].
    repeat split; try assumption; [|congruence].
    f_equal. f_equal. lia.
  - destruct (Ascii.eqb_spec c ".") as [->|Hc].
    + (* a fraction *)
      destruct (digitRun r1') as [n2 r2] eqn:E2.
      apply andb_true_iff in L. destruct L as [L X].
      pose proof (digitRun_length r1' n2 r2 E2) as Len2.
      rewrite L1. cbn [digitLoop]. change (Ascii.eqb "." "_") with false.
      change (Ascii.eqb "." ".") with true. cbv iota. rewrite F1.
      match goal with
      | |- context [digitLoop 10 19 r1' ?j ?st2] =>
          destruct (digitLoop_digitRun r1' j st2 n2 r2 E2)
            as (st3 & L3 & G1 & G2 & G3)
      end.
      cbn [sawdot underscores sawdigits] in G1, G2, G3.
      exists st3, r2. rewrite L3, (digitLoop_stops r2 _ st3 X).
      repeat split; try assumption; [| | congruence].
      * f_equal. f_equal. rewrite len_String in Len1. lia.
      * rewrite G3, F3.
        destruct n1, n2; try reflexivity. discriminate L.
    + (* no fraction *)
      rewrite Nat.add_0_r in L. apply andb_true_iff in L. destruct L as [L X].
      exists st1, (String c r1'). rewrite L1, (digitLoop_stops _ _ st1 X).
      repeat split; try assumption; [|congruence].
      f_equal. f_equal. lia.
Qed.

Lemma readDigits_accepts (s : string) (neg : bool) (i : Z) (r : string) :
  unsignedLiteral r = true ->
  i + len r = len s ->
  exists mantissa exp trunc,
    readDigits s neg i r = (mantissa, exp, neg, trunc, false, len s, true).
Proof.
  intros L Hi. unfold readDigits.
  assert (P : match r with
              | String d0 (String d1 (String d2 r')) =>
                  if Ascii.eqb d0 "0" && (lower d1 =? byte "x")
                  then (16, 16, byte "p", true, i + 2, String d2 r')
                  else (10, 19, byte "e", false, i, r)
              | _ => (10, 19, byte "e", false, i, r)
              end = (10, 19, byte "e", false, i, r)).
  { destruct r as [|d0 [|d1 [|d2 r']]]; try reflexivity.
    destruct (Ascii.eqb_spec d0 "0") as [->|]; [|reflexivity].
    destruct (lower d1 =? byte "x") eqn:Hx; [|reflexivity].
    destruct (lower_x d1 Hx) as (D & N & X).
    unfold unsignedLiteral in L. cbn [digitRun] in L.
    change (isDigit "0") with true in L. rewrite D in L. cbv iota in L.
    rewrite N in L. cbn [exponentPart] in L. rewrite X in L.
    now rewrite andb_false_r in L. }
  rewrite P. clear P.
  destruct (digitLoop_literal r i L) as (st & r2 & DL & Sd & Su & X).
  rewrite DL, Sd. cbn [negb].
  destruct (readExponent_accepts s neg st (i + (len r - len r2)) r2 Su X)
    as [exp RE].
  rewrite RE. exists (mantissa st), exp, (trunc st).
  repeat f_equal. lia.
Qed.

Lemma readFloat_accepts (s : string) :
  decimalFloatLiteral s = true ->
  exists mantissa exp neg trunc,
    readFloat s = (mantissa, exp, neg, trunc, false, len s, true).
Proof.
  unfold decimalFloatLiteral. intros L.
  destruct s as [|c0 s1]; [discriminate L|].
  cbn [dropSign] in L. unfold readFloat.
  destruct (Ascii.eqb c0 "+") eqn:P1; [|destruct (Ascii.eqb c0 "-") eqn:P2];
    cbn [orb] in L.
  - destruct (readDigits_accepts (String c0 s1) false 1 s1 L) as (m & e & t & R).
    { rewrite len_String. lia. }
    now exists m, e, false, t.
  - destruct (readDigits_accepts (String c0 s1) true 1 s1 L) as (m & e & t & R).
    { rewrite len_String. lia. }
    now exists m, e, true, t.
  - destruct (readDigits_accepts (String c0 s1) false 0 _ L) as (m & e & t & R).
    { lia. }
    now exists m, e, false, t.
Qed.

End FloatAcceptance2.

Section DecimalAcceptance.
Import strconv.

Lemma setDigits_digitRun (s : string) :
  forall b sawdot sawdigits n r,
    digitRun s = (n, r) ->
    exists b',
      setDigits s b sawdot sawdigits
      = setDigits r b' sawdot (sawdigits || negb (Nat.eqb n 0)).
Proof.
  induction s as [|c s IH]; intros b sd sg n r E.
  - inversion E; subst. exists b. now rewrite orb_false_r.
  - cbn [digitRun] in E. destruct (isDigit c) eqn:D.
    + destruct (digitRun s) as [n' r'] eqn:E'. inversion E; subst.
      destruct (isDigit_not_underscore c D) as [N1 N2].
      cbn [setDigits]. rewrite N1, N2, D.
      cbn [Nat.eqb negb]. rewrite orb_true_r.
      destruct (Ascii.eqb c "0" && (d_nd b =? 0));
        [|destruct (d_nd b <? 800)];
        match goal with
        | |- context [setDigits s ?b1 sd true] =>
            destruct (IH b1 sd true n' r eq_refl) as [b' L]
        end; exists b'; rewrite L; now rewrite orb_true_l.
    + inversion E; subst. exists b. now rewrite orb_false_r.
Qed.

Lemma setDigits_stops (r : string) (b : decimal) (sawdot sawdigits : bool) :
  exponentPart r = true ->
  setDigits r b sawdot sawdigits = (b, sawdot, sawdigits, r).
Proof.
  destruct r as [|c r']; [reflexivity|]. intros X.
  cbn [exponentPart] in X. apply andb_true_iff in X. destruct X as [X _].
  destruct (lower_e c X) as (_ & D & N1 & N2 & _).
  cbn [setDigits]. now rewrite N1, N2, D.
Qed.

Lemma setDigits_literal (r : string) (b : decimal) :
  unsignedLiteral r = true ->
  exists b' sawdot r2,
    setDigits r b false false = (b', sawdot, true, r2)
    /\ exponentPart r2 = true.
Proof.
  unfold unsignedLiteral. intros L.
  destruct (digitRun r) as [n1 r1] eqn:E1.
  destruct (setDigits_digitRun r b false false n1 r1 E1) as [b1 L1].
  cbn [orb] in L1.
  destruct r1 as [|c r1'].
  - rewrite Nat.add_0_r in L. apply andb_true_iff in L. destruct L as [L X].
    exists b1, false, "". rewrite L1, L. now split.
  - destruct (Ascii.eqb_spec c ".") as [->|Hc].
    + destruct (digitRun r1') as [n2 r2] eqn:E2.
      apply andb_true_iff in L. destruct L as [L X].
      rewrite L1. cbn [setDigits]. change (Ascii.eqb "." "_") with false.
      change (Ascii.eqb "." ".") with true. cbv iota.
      match goal with
      | |- context [setDigits r1' ?b2 true ?sg] =>
          destruct (setDigits_digitRun r1' b2 true sg n2 r2 E2) as [b3 L3]
      end.
      exists b3, true, r2. rewrite L3, (setDigits_stops r2 _ _ _ X).
      split; [|assumption]. f_equal.
      destruct n1, n2; try reflexivity. discriminate L.
    + rewrite Nat.add_0_r in L. apply andb_true_iff in L. destruct L as [L X].
      exists b1, false, (String c r1').
      rewrite L1, (setDigits_stops _ _ _ _ X), L. now split.
Qed.

Lemma setDecimal_accepts (neg : bool) (r : string) :
  unsignedLiteral r = true -> exists b, setDecimal neg r = Some b.
Proof.
  intros L. unfold setDecimal.
  destruct (setDigits_literal r (Decimal 0 0 0 neg false) L)
    as (b & sd & r2 & S & X).
  rewrite S. cbn [negb].
  destruct r2 as [|c r']; [eauto|].
  cbn [exponentPart] in X. apply andb_true_iff in X. destruct X as [Xe X].
  destruct (lower_e c Xe) as (Le & _). rewrite Le.
  destruct (digitRun (dropSign r')) as [n3 r''] eqn:E3.
  apply andb_true_iff in X. destruct X as [Xn Xr].
  apply negb_true_iff, Nat.eqb_neq in Xn.
  apply String.eqb_eq in Xr. subst r''.
  destruct (digitRun_head _ _ _ E3 Xn) as (c2 & t & Hd & D2).
  destruct r' as [|c1 r2]; [discriminate Hd|].
  cbn [dropSign] in Hd, E3. rewrite Hd in E3.
  destruct (exponentLoop_digits _ 0 0 false _ E3) as [e' EL].
  rewrite Z.add_0_l in EL.
  destruct (Ascii.eqb c1 "+") eqn:P1; [|destruct (Ascii.eqb c1 "-") eqn:P2];
    cbn [orb] in Hd.
  - subst r2. rewrite D2. cbn [negb]. rewrite EL, Z.eqb_refl. eauto.
  - subst r2. rewrite D2. cbn [negb]. rewrite EL, Z.eqb_refl. eauto.
  - inversion Hd; subst c1 r2. rewrite D2. cbn [negb].
    rewrite EL, Z.eqb_refl. eauto.
Qed.

Lemma decimal_set_accepts (s : string) :
  decimalFloatLiteral s = true -> exists b, decimal_set s = Some b.
Proof.
  unfold decimalFloatLiteral. intros L.
  destruct s as [|c0 s1]; [discriminate L|].
  cbn [dropSign] in L. unfold decimal_set.
  destruct (Ascii.eqb c0 "+") eqn:P1; [|destruct (Ascii.eqb c0 "-") eqn:P2];
    cbn [orb] in L; now apply setDecimal_accepts.
Qed.

(** No literal spells an infinity or a NaN. *)
Lemma special_literal (s : string) :
  decimalFloatLiteral s = true -> special s = None.
Proof.
  unfold decimalFloatLiteral. intros L.
  destruct (unsignedLiteral_head _ L) as (h & t & Hr & Hh).
  assert (Hpre : forall p, In p ["i"; "I"; "n"; "N"; "+"; "-"]%char ->
                           Ascii.eqb h p = false).
  { intros p Hp. cbn [In] in Hp. destruct Hh as [D| ->].
    - destruct (Ascii.eqb_spec h p) as [->|]; [exfalso | reflexivity].
      repeat (destruct Hp as [Hp|Hp]; [subst p; discriminate D|]).
      exact Hp.
    - repeat (destruct Hp as [Hp|Hp]; [subst p; reflexivity|]).
      contradiction. }
  assert (Hinf : commonPrefixLenIgnoreCase (String h t) "infinity" = 0).
  { cbn [commonPrefixLenIgnoreCase].
    destruct Hh as [D| ->]; [|reflexivity].
    unfold isDigit, between in D. unfold between.
    change (byte "0") with 48 in D. change (byte "9") with 57 in D.
    change (byte "A") with 65. change (byte "Z") with 90.
    change (byte "i") with 105.
    apply andb_true_iff in D. destruct D as [D1 D2].
    apply Z.leb_le in D1, D2.
    destruct (Z.leb_spec 65 (byte h)); [lia|]. cbn [andb].
    destruct (Z.eqb_spec (byte h) 105); [lia | reflexivity]. }
  destruct s as [|c0 s1]; [reflexivity|].
  cbn [dropSign] in Hr. unfold special.
  destruct (Ascii.eqb c0 "+") eqn:P1; [|destruct (Ascii.eqb c0 "-") eqn:P2];
    cbn [orb] in Hr.
  - subst s1. now rewrite Hinf.
  - subst s1. now rewrite Hinf.
  - inversion Hr; subst c0 s1.
    rewrite !Hpre by (cbn [In]; auto 10). reflexivity.
Qed.

Lemma floatBits_overflow (b : decimal) :
  snd (floatBits b) = isInf (fst (floatBits b)).
Proof.
  unfold floatBits.
  destruct (d_nd b =? 0); [reflexivity|].
  destruct (310 <? d_dp b); [reflexivity|].
  destruct (d_dp b <? -330); [reflexivity|].
  destruct (d_trunc b); reflexivity.
Qed.


End DecimalAcceptance.

(** Every error of [ParseFloat] is a [NumError] about the whole string:
    bad syntax, or a value out of range. *)
Lemma ParseFloat_error (s : string) (f : strconv.float64) (e : error) :
  strconv.ParseFloat s = (f, Some e) ->
  e = strconv.syntaxError "ParseFloat" s \/ e = strconv.rangeError "ParseFloat" s.
Proof.
  unfold strconv.ParseFloat, strconv.atof64.
  destruct (strconv.special s) as [[val n]|].
  - cbn [negb andb]. rewrite andb_true_r.
    destruct (n =? len s); cbn [negb]; intros E; inversion E. now left.
  - destruct (strconv.readFloat s) as [[[[[[m ex] neg] tr] hex] n] ok].
    destruct ok; cbn [negb].
    + destruct hex.
      * unfold strconv.atofHex.
        match goal with
        | |- context [strconv.isInf ?x] => destruct (strconv.isInf x)
        end.
        -- change (error_eqb strconv.ErrRange strconv.ErrSyntax) with false.
           cbn [negb]. rewrite andb_true_r.
           destruct (Z.eqb_spec n (len s)) as [->|]; cbn [negb];
             intros E; inversion E; [right | left]; [|reflexivity].
           now rewrite slice_to_len.
        -- rewrite andb_true_r.
           destruct (n =? len s); cbn [negb]; intros E; inversion E. now left.
      * destruct (strconv.decimal_set (slice_to n s)) as [b|].
        -- destruct (strconv.floatBits b) as [g ovf]. destruct ovf.
           ++ change (error_eqb strconv.ErrRange strconv.ErrSyntax)
                with false.
              cbn [negb]. rewrite andb_true_r.
              destruct (n =? len s); cbn [negb]; intros E; inversion E;
                [now right | now left].
           ++ rewrite andb_true_r.
              destruct (n =? len s); cbn [negb]; intros E; inversion E.
              now left.
        -- change (error_eqb strconv.ErrSyntax strconv.ErrSyntax)
             with true.
           cbn [negb]. rewrite andb_false_r. intros E; inversion E. now left.
    + change (error_eqb strconv.ErrSyntax strconv.ErrSyntax) with true.
      cbn [negb]. rewrite andb_false_r. intros E; inversion E. now left.
Qed.

(** *** Booleans: [ToLower] on ASCII text *)

Lemma oneOf_In (x : string) (cases : list string) :
  oneOf x cases = true <-> In x cases.
Proof.
  induction cases as [|c cases IH]; simpl.
  - split; [discriminate | contradiction].
  - rewrite orb_true_iff, IH, String.eqb_eq. split; intros [H|H]; auto.
Qed.

Lemma scanASCII_spec (s : string) :
  forall hasUpper,
    isASCII s = true ->
    exists h, strings.scanASCII s hasUpper = (true, h)
              /\ (h = false -> strings.lowerASCII s = s).
Proof.
  unfold isASCII.
  induction s as [|c s IH]; intros hu A.
  - exists hu. now split.
  - cbn [list_ascii_of_string forallb] in A.
    apply andb_true_iff in A. destruct A as [Ac A].
    cbn [strings.scanASCII]. unfold strings.RuneSelf.
    destruct (Z.leb_spec 128 (byte c)) as [Hc|_]; [apply Z.ltb_lt in Ac; lia|].
    destruct (IH (hu || between "A" "Z" c) A) as (h & S & Hl).
    exists h. split; [assumption|].
    intros Hh. cbn [strings.lowerASCII].
    assert (between "A" "Z" c = false) as Hb.
    { subst h. clear - S. revert S.
      generalize (between "A" "Z" c) as b. intros b.
      assert (G : forall t x, strings.scanASCII t x = (true, false) -> x = false).
      { induction t as [|a t IHt]; intros x; cbn [strings.scanASCII].
        - intros E; now inversion E.
        - destruct (strings.RuneSelf <=? byte a); [discriminate|].
          intros E. apply IHt in E. now apply orb_false_iff in E. }
      intros E. apply G in E. now apply orb_false_iff in E. }
    unfold strings.lowerByte. rewrite Hb. now rewrite (Hl Hh).
Qed.

Lemma ToLower_ASCII `{U : Unicode} (s : string) :
  isASCII s = true -> strings.ToLower s = strings.lowerASCII s.
Proof.
  intros A. unfold strings.ToLower.
  destruct (scanASCII_spec s false A) as (h & -> & Hl).
  destruct h; cbn [negb]; [reflexivity|]. symmetry. now apply Hl.
Qed.

(** A byte of lower-case text is what [lowerByte] makes of [c] exactly
    when [c] is that byte or its capital. *)
Lemma ascii_of_byte (x : Z) (t : ascii) :
  0 <= x < 256 ->
  Ascii.eqb (ascii_of_N (Z.to_N x)) t = (x =? byte t).
Proof.
  intros Hx. unfold byte.
  destruct (Z.eqb_spec x (Z.of_N (N_of_ascii t))) as [->|Hne].
  - rewrite N2Z.id, ascii_N_embedding. apply Ascii.eqb_refl.
  - apply Ascii.eqb_neq. intros <-. apply Hne.
    rewrite N_ascii_embedding by lia. now rewrite Z2N.id by lia.
Qed.

Lemma lowerByte_matches (c t : ascii) :
  between "A" "Z" t = false ->
  Ascii.eqb (strings.lowerByte c) t
  = Ascii.eqb c t || (between "A" "Z" c && (byte c + 32 =? byte t)).
Proof.
  intros Ht. unfold strings.lowerByte.
  destruct (between "A" "Z" c) eqn:Hc.
  - assert (Ascii.eqb c t = false) as ->.
    { apply Ascii.eqb_neq. intros ->. congruence. }
    cbn [orb andb]. change (byte "a" - byte "A") with 32.
    unfold between in Hc. change (byte "A") with 65 in Hc.
    change (byte "Z") with 90 in Hc.
    apply andb_true_iff in Hc. destruct Hc as [H1 H2].
    apply Z.leb_le in H1, H2.
    rewrite Z.mod_small by lia. apply ascii_of_byte. lia.
  - cbn [andb]. now rewrite orb_false_r.
Qed.

Lemma lowerASCII_matches (value : string) :
  forall token,
    lowerCaseText token = true ->
    String.eqb (strings.lowerASCII value) token = matchesIgnoringCase value token.
Proof.
  unfold lowerCaseText.
  induction value as [|c value IH]; intros [|t token] T; try reflexivity.
  cbn [list_ascii_of_string forallb] in T.
  apply andb_true_iff in T. destruct T as [Tt T].
  apply negb_true_iff in Tt.
  cbn [strings.lowerASCII matchesIgnoringCase String.eqb].
  rewrite (lowerByte_matches c t Tt), (IH token T).
  destruct (Ascii.eqb c t || (between "A" "Z" c && (byte c + 32 =? byte t)));
    reflexivity.
Qed.

Lemma oneOf_matches (value : string) (tokens : list string) :
  forallb lowerCaseText tokens = true ->
  oneOf (strings.lowerASCII value) tokens
  = existsb (matchesIgnoringCase value) tokens.
Proof.
  induction tokens as [|t tokens IH]; [reflexivity|].
  cbn [forallb oneOf existsb]. intros T.
  apply andb_true_iff in T. destruct T as [Tt T].
  now rewrite (lowerASCII_matches value t Tt), (IH T).
Qed.

(** *** The function, case by case *)

Section Cases.
Context `{U : Unicode}.

Lemma convert_cases (value paramType : string) :
  (effective paramType = "string"
   /\ ConvertStringToType value paramType = (Some (of_string value), None))
  \/ (effective paramType = "number"
      /\ ConvertStringToType value paramType =
         match strconv.ParseFloat value with
         | (_, Some err) =>
             (None, Some (wrapError ("failed to parse '" ++ value
                                     ++ "' as number: " ++ Error err) err))
         | (floatVal, None) => (Some (of_float64 floatVal), None)
         end)
  \/ (effective paramType = "integer"
      /\ ConvertStringToType value paramType =
         match strconv.ParseInt value with
         | (_, Some err) =>
             (None, Some (wrapError ("failed to parse '" ++ value
                                     ++ "' as integer: " ++ Error err) err))
         | (intVal, None) => (Some (of_int64 intVal), None)
         end)
  \/ (effective paramType = "boolean"
      /\ ConvertStringToType value paramType =
         if oneOf (strings.ToLower value) truthy
         then (Some (of_bool true), None)
         else if oneOf (strings.ToLower value) falsy
         then (Some (of_bool false), None)
         else (None, Some (errorString ("failed to parse '" ++ value
                                        ++ "' as boolean"))))
  \/ (oneOf (effective paramType) ["string"; "number"; "integer"; "boolean"]
      = false
      /\ ConvertStringToType value paramType =
         (None, Some (errorString ("unsupported parameter type: "
                                   ++ effective paramType)))).
Proof.
  destruct (String.eqb_spec (effective paramType) "string") as [E|N1].
  { left. split; [assumption | now apply convert_string]. }
  destruct (String.eqb_spec (effective paramType) "number") as [E|N2].
  { right. left. split; [assumption | now apply convert_number]. }
  destruct (String.eqb_spec (effective paramType) "integer") as [E|N3].
  { right. right. left. split; [assumption | now apply convert_integer]. }
  destruct (String.eqb_spec (effective paramType) "boolean") as [E|N4].
  { right. right. right. left.
    split; [assumption | now apply convert_boolean]. }
  right. right. right. right.
  assert (oneOf (effective paramType) ["string"; "number"; "integer"; "boolean"]
          = false) as O.
  { cbn [oneOf]. apply String.eqb_neq in N1, N2, N3, N4.
    now rewrite N1, N2, N3, N4. }
  split; [assumption | now apply convert_unsupported].
Qed.



Lemma conversion_error_integer (value : string) (err : error) :
  ConversionError value
    (wrapError ("failed to parse '" ++ value ++ "' as integer: " ++ Error err) err).
Proof.
  exists "integer", (": " ++ Error err). split; [cbn [In]; auto | reflexivity].
Qed.

Lemma conversion_error_boolean (value : string) :
  ConversionError value
    (errorString ("failed to parse '" ++ value ++ "' as boolean")).
Proof.
  exists "boolean", "". split; [cbn [In]; auto | reflexivity].
Qed.


(** The two sets of tokens do not meet. *)
Lemma truthy_not_falsy (x : string) :
  oneOf x truthy = true -> oneOf x falsy = false.
Proof.
  intros T. apply oneOf_In in T. unfold truthy in T. cbn [In] in T.
  repeat (destruct T as [<-|T]; [reflexivity|]). contradiction.
Qed.

End Cases.

(** ** The claims *)

Section Claims.
Context `{U : Unicode}.

Lemma unsupported_message (value paramType : string) :
  ~ In paramType [""; "string"; "number"; "integer"; "boolean"] ->
  exists e,
    ConvertStringToType value paramType = (None, Some e)
    /\ UnsupportedTypeError paramType e
    /\ embeds paramType (Error e).
Proof.
  intros N. cbn [In] in N.
  assert (E : effective paramType = paramType).
  { apply effective_other. intros ->. apply N. now left. }
  assert (O : oneOf (effective paramType)
                    ["string"; "number"; "integer"; "boolean"] = false).
  { rewrite E. destruct (oneOf paramType _) eqn:O; [|reflexivity].
    apply oneOf_In in O. exfalso. apply N. right. cbn [In] in O. tauto. }
  rewrite (convert_unsupported value paramType O), E.
  eexists. split; [reflexivity|]. split; [reflexivity|].
  exists "unsupported parameter type: ", "". cbn [Error].
  now rewrite append_nil_r.
Qed.


(** C2.  [ConvertStringToType value "boolean"] compares the lower-cased
    value, as a whole, with two sets of tokens: it returns [true] exactly
    when it is one of true, t, yes, y, 1, returns [false] exactly when it
    is one of false, f, no, n, 0, and fails with a ConversionError for
    any other string.  On ASCII text the comparison is the match of the
    whole of [value] against a token up to letter case.  ["Yes"] gives
    [true], ["N"] gives [false], ["maybe"] fails. *)
Theorem boolean_tokens (value : string) :
  (ConvertStringToType value "boolean" = (Some (of_bool true), None)
   <-> In (strings.ToLower value) truthy)
  /\ (ConvertStringToType value "boolean" = (Some (of_bool false), None)
      <-> In (strings.ToLower value) falsy)
  /\ ((exists e, ConvertStringToType value "boolean" = (None, Some e)
                 /\ ConversionError value e)
      <-> ~ In (strings.ToLower value) (truthy ++ falsy))
  /\ (if isASCII value then
        oneOf (strings.ToLower value) truthy
        = existsb (matchesIgnoringCase value) truthy
        /\ oneOf (strings.ToLower value) falsy
           = existsb (matchesIgnoringCase value) falsy
      else True)
  /\ ConvertStringToType "Yes" "boolean" = (Some (of_bool true), None)
  /\ ConvertStringToType "N" "boolean" = (Some (of_bool false), None)
  /\ (exists e, ConvertStringToType "maybe" "boolean" = (None, Some e)
                /\ ConversionError "maybe" e).
Proof.
  rewrite (convert_boolean value "boolean" eq_refl).
  conjuncts; [split | split | split | | | |].
  - destruct (oneOf (strings.ToLower value) truthy) eqn:T.
    + intros _. now apply oneOf_In.
    + destruct (oneOf (strings.ToLower value) falsy); discriminate.
  - intros T. apply oneOf_In in T. now rewrite T.
  - destruct (oneOf (strings.ToLower value) truthy) eqn:T; [discriminate|].
    destruct (oneOf (strings.ToLower value) falsy) eqn:F; [|discriminate].
    intros _. now apply oneOf_In.
  - intros F. apply oneOf_In in F.
    destruct (oneOf (strings.ToLower value) truthy) eqn:T.
    + apply truthy_not_falsy in T. congruence.
    + now rewrite F.
  - intros (e & E & _) H. apply in_app_or in H.
    destruct H as [H|H]; apply oneOf_In in H.
    + rewrite H in E. discriminate.
    + destruct (oneOf (strings.ToLower value) truthy); [discriminate|].
      rewrite H in E. discriminate.
  - intros H.
    destruct (oneOf (strings.ToLower value) truthy) eqn:T.
    { exfalso. apply H, in_or_app. left. now apply oneOf_In. }
    destruct (oneOf (strings.ToLower value) falsy) eqn:F.
    { exfalso. apply H, in_or_app. right. now apply oneOf_In. }
    eexists. split; [reflexivity | apply conversion_error_boolean].
  - destruct (isASCII value) eqn:A; [|exact I].
    rewrite (ToLower_ASCII value A).
    split; now apply oneOf_matches.
  - now rewrite (convert_boolean "Yes" "boolean" eq_refl).
  - now rewrite (convert_boolean "N" "boolean" eq_refl).
  - rewrite (convert_boolean "maybe" "boolean" eq_refl).
    eexists. split; [reflexivity | apply conversion_error_boolean].
Qed.

(** C3.  [ConvertStringToType value "integer"] reads [value] as a base-10
    integer -- an optional sign and decimal digits -- and returns it as
    an int64 when it lies in the int64 range.  It fails with a
    ConversionError on every string that is not a base-10 integer and on
    every integer out of that range.  ["42"] gives 42; ["1.5"], which is
    a float literal, fails. *)
Theorem integer_base10 (value : string) :
  match base10Integer value with
  | Some n =>
      if (minInt64 <=? n) && (n <=? maxInt64)
      then ConvertStringToType value "integer" = (Some (of_int64 n), None)
      else exists e, ConvertStringToType value "integer" = (None, Some e)
                     /\ ConversionError value e
  | None =>
      exists e, ConvertStringToType value "integer" = (None, Some e)
                /\ ConversionError value e
  end
  /\ ConvertStringToType "42" "integer" = (Some (of_int64 42), None)
  /\ decimalFloatLiteral "1.5" = true
  /\ (exists e, ConvertStringToType "1.5" "integer" = (None, Some e)
                /\ ConversionError "1.5" e).
Proof.
  conjuncts.
  - rewrite (convert_integer value "integer" eq_refl).
    pose proof (ParseInt_spec value) as P.
    destruct (base10Integer value) as [n|].
    + rewrite P. destruct ((minInt64 <=? n) && (n <=? maxInt64)); [reflexivity|].
      eexists. split; [reflexivity | apply conversion_error_integer].
    + destruct P as (r & Err & ->).
      eexists. split; [reflexivity | apply conversion_error_integer].
  - now rewrite (convert_integer "42" "integer" eq_refl).
  - reflexivity.
  - rewrite (convert_integer "1.5" "integer" eq_refl).
    eexists. split; [reflexivity | apply conversion_error_integer].
Qed.

(** C4.  With the type ["string"] and with the empty type the call
    succeeds and returns [value] unchanged; the two results are the
    same. *)
Theorem string_and_default (value : string) :
  ConvertStringToType value "string" = (Some (of_string value), None)
  /\ ConvertStringToType value "" = (Some (of_string value), None)
  /\ ConvertStringToType value "" = ConvertStringToType value "string".
Proof. conjuncts; reflexivity. Qed.

(** C5.  For a [paramType] that is none of [""], ["string"], ["number"],
    ["integer"], ["boolean"], the call fails with an UnsupportedTypeError
    whose message names [paramType]. *)
Theorem unsupported_type (value paramType : string) :
  ~ In paramType [""; "string"; "number"; "integer"; "boolean"] ->
  exists e,
    ConvertStringToType value paramType = (None, Some e)
    /\ UnsupportedTypeError paramType e
    /\ embeds paramType (Error e).
Proof. apply unsupported_message. Qed.




(** C9.  The value is nil exactly when the error is not: a failure
    returns no value, and a success returns a typed value and no error
    -- the string itself for ["string"] and [""], a float64 for
    ["number"], an int64 for ["integer"], a bool for ["boolean"].  The
    empty string under the string type is a value, not nil. *)
Theorem value_xor_error (value paramType : string) :
  (fst (ConvertStringToType value paramType) = None
   <-> snd (ConvertStringToType value paramType) <> None)
  /\ match ConvertStringToType value paramType with
     | (Some v, None) =>
         match v with
         | of_string s => effective paramType = "string" /\ s = value
         | of_float64 _ => paramType = "number"
         | of_int64 _ => paramType = "integer"
         | of_bool _ => paramType = "boolean"
         end
     | (None, Some _) => effective paramType <> "string"
     | _ => False
     end
  /\ ConvertStringToType "" "string" = (Some (of_string ""), None).
Proof.
  assert (Eff : forall t, effective paramType = t -> t <> "string" ->
                          paramType = t).
  { intros t <- Ht. unfold effective in *.
    destruct (String.eqb paramType ""); [congruence | reflexivity]. }
  assert (Ok : forall v : any,
            fst (Some v, @None error) = None
            <-> snd (Some v, @None error) <> None).
  { intros v. cbn [fst snd]. split; [discriminate | congruence]. }
  assert (Ko : forall e : error,
            fst (@None any, Some e) = None
            <-> snd (@None any, Some e) <> None).
  { intros e. cbn [fst snd]. split; [discriminate | reflexivity]. }
  split; [|split; [|reflexivity]];
    destruct (convert_cases value paramType)
      as [[E ->] | [[E ->] | [[E ->] | [[E ->] | [O ->]]]]].
  - apply Ok.
  - destruct (strconv.ParseFloat value) as [f [err|]]; [apply Ko | apply Ok].
  - destruct (strconv.ParseInt value) as [n [err|]]; [apply Ko | apply Ok].
  - destruct (oneOf _ truthy); [|destruct (oneOf _ falsy)];
      [apply Ok | apply Ok | apply Ko].
  - apply Ko.
  - now split.
  - pose proof (Eff _ E ltac:(discriminate)) as ->.
    destruct (strconv.ParseFloat value) as [f [err|]];
      [discriminate | reflexivity].
  - pose proof (Eff _ E ltac:(discriminate)) as ->.
    destruct (strconv.ParseInt value) as [n [err|]];
      [discriminate | reflexivity].
  - pose proof (Eff _ E ltac:(discriminate)) as ->.
    destruct (oneOf _ truthy); [|destruct (oneOf _ falsy)];
      [reflexivity | reflexivity | discriminate].
  - intros E. rewrite E in O. discriminate O.
Qed.

(** C10.  Some strings that are not in decimal or exponential notation
    are accepted for ["number"], because the syntax is that of
    [strconv.ParseFloat]: ["Inf"] gives an infinity, ["NaN"] a NaN, the
    hexadecimal ["0x1p-2"] gives 1/4 and ["1_000"], with an underscore
    between digits, gives 1000. *)
Theorem number_accepts_more :
  (decimalFloatLiteral "Inf" = false
   /\ ConvertStringToType "Inf" "number"
      = (Some (of_float64 (S754_infinity false)), None))
  /\ (decimalFloatLiteral "NaN" = false
      /\ ConvertStringToType "NaN" "number" = (Some (of_float64 S754_nan), None))
  /\ (decimalFloatLiteral "0x1p-2" = false
      /\ ConvertStringToType "0x1p-2" "number"
         = (Some (of_float64 (S754_finite false (2 ^ 52) (-54))), None))
  /\ (decimalFloatLiteral "1_000" = false
      /\ ConvertStringToType "1_000" "number"
         = (Some (of_float64 (S754_finite false (1000 * 2 ^ 43) (-43))), None)).
Proof. conjuncts; reflexivity. Qed.

End Claims.

(** ** Further properties of the code *)

(** *** Integers: signs, leading zeros and the kind of error *)

Lemma prefixValue_grows (s : string) :
  forall acc, 0 <= acc -> acc <= prefixValue s acc.
Proof.
  induction s as [|c s IH]; simpl; intros acc Hacc; [lia|].
  destruct (isDigit c) eqn:D; [|lia].
  apply isDigit_value in D. specialize (IH (acc * 10 + (byte c - byte "0"))). lia.
Qed.

Lemma decimalValue_prefixValue (s : string) :
  forall acc,
    decimalValue s acc = if allDigits s then Some (prefixValue s acc) else None.
Proof.
  unfold allDigits.
  induction s as [|c s IH]; intros acc; [reflexivity|].
  cbn [decimalValue prefixValue list_ascii_of_string forallb].
  destruct (isDigit c); [apply IH | reflexivity].
Qed.

Section IntegerKinds.
Import strconv.

Let cutoff : Z := maxUint64 / 10 + 1.
Let maxVal : Z := uint64 (uint64 (Z.shiftl 1 64) - 1).

(** The digit loop of [ParseUint], in closed form: the range error comes
    first, as soon as the digits read so far no longer fit. *)
Lemma parseUintLoop_kind (s0 s : string) :
  forall n, 0 <= n <= maxUint64 ->
  parseUintLoop s0 cutoff maxVal s n =
  if maxUint64 <? prefixValue s n
  then (maxUint64, Some (rangeError "ParseUint" s0))
  else if allDigits s then (prefixValue s n, None)
  else (0, Some (syntaxError "ParseUint" s0)).
Proof.
  change maxVal with maxUint64. change cutoff with 1844674407370955162.
  unfold allDigits.
  induction s as [|c s IH]; intros n Hn.
  - simpl. destruct (Z.ltb_spec maxUint64 n); [lia | reflexivity].
  - cbn [prefixValue parseUintLoop list_ascii_of_string forallb].
    destruct (isDigit c) eqn:D.
    + pose proof (isDigit_value c D) as Hd.
      set (d := byte c - byte "0") in *.
      destruct (Z.leb_spec 10 d) as [|_]; [lia|].
      cbn [andb].
      destruct (Z.leb_spec 1844674407370955162 n) as [Hc|Hc].
      * pose proof (prefixValue_grows s (n * 10 + d) ltac:(lia)) as G.
        destruct (Z.ltb_spec maxUint64 (prefixValue s (n * 10 + d))) as [_|Hv];
          [reflexivity|].
        unfold maxUint64 in Hv. lia.
      * assert (E10 : uint64 (n * 10) = n * 10).
        { unfold uint64. apply Z.mod_small. lia. }
        rewrite E10.
        destruct (Z.lt_ge_cases (n * 10 + d) (2 ^ 64)) as [Hfit|Hover].
        -- assert (E1 : uint64 (n * 10 + d) = n * 10 + d).
           { unfold uint64. apply Z.mod_small. lia. }
           rewrite E1.
           destruct (Z.ltb_spec (n * 10 + d) (n * 10)) as [|_]; [lia|].
           destruct (Z.ltb_spec maxUint64 (n * 10 + d)) as [Hm|_].
           { unfold maxUint64 in Hm. lia. }
           cbn [orb]. apply IH. unfold maxUint64. lia.
        -- assert (E1 : uint64 (n * 10 + d) = n * 10 + d - 2 ^ 64).
           { unfold uint64. symmetry. apply (Z.mod_unique _ _ 1); lia. }
           rewrite E1.
           destruct (Z.ltb_spec (n * 10 + d - 2 ^ 64) (n * 10)) as [_|]; [|lia].
           cbn [orb].
           pose proof (prefixValue_grows s (n * 10 + d) ltac:(lia)) as G.
           destruct (Z.ltb_spec maxUint64 (prefixValue s (n * 10 + d))) as [_|Hv];
             [reflexivity|].
           unfold maxUint64 in Hv. lia.
    + cbn [andb]. destruct (Z.ltb_spec maxUint64 n) as [|_]; [lia|].
      destruct ((byte "a" <=? lower c) && (lower c <=? byte "z")) eqn:L;
        [|reflexivity].
      apply andb_true_iff in L. destruct L as [L _].
      destruct (Z.leb_spec 10 (lower c - byte "a" + 10)) as [_|]; [reflexivity|].
      apply Z.leb_le in L. lia.
Qed.

Lemma ParseUint_kind (s : string) :
  ParseUint s =
  if String.eqb s "" then (0, Some (syntaxError "ParseUint" s))
  else if maxUint64 <? prefixValue s 0
  then (maxUint64, Some (rangeError "ParseUint" s))
  else if allDigits s then (prefixValue s 0, None)
  else (0, Some (syntaxError "ParseUint" s)).
Proof.
  destruct s as [|c s]; [reflexivity|].
  unfold ParseUint. change (String.eqb (String c s) "") with false. cbv iota.
  apply (parseUintLoop_kind (String c s) (String c s) 0).
  unfold maxUint64. lia.
Qed.

Lemma afterSign_kind (s0 : string) (neg : bool) (s : string) :
  afterSign s0 neg s =
  if String.eqb s "" then (0, Some (syntaxError "ParseInt" s0))
  else if maxUint64 <? prefixValue s 0
  then (if neg then minInt64 else maxInt64, Some (rangeError "ParseInt" s0))
  else if negb (allDigits s) then (0, Some (syntaxError "ParseInt" s0))
  else
    let n := if neg then - prefixValue s 0 else prefixValue s 0 in
    if (minInt64 <=? n) && (n <=? maxInt64) then (n, None)
    else (if neg then minInt64 else maxInt64, Some (rangeError "ParseInt" s0)).
Proof.
  destruct s as [|c s]; [reflexivity|].
  change (String.eqb (String c s) "") with false. cbv iota.
  destruct (maxUint64 <? prefixValue (String c s) 0) eqn:Big.
  - unfold afterSign. rewrite ParseUint_kind.
    change (String.eqb (String c s) "") with false. cbv iota.
    rewrite Big. destruct neg; reflexivity.
  - destruct (allDigits (String c s)) eqn:A; cbn [negb].
    + pose proof (afterSign_spec s0 neg (String c s)) as P.
      unfold unsignedInteger in P.
      rewrite decimalValue_prefixValue, A in P. exact P.
    + unfold afterSign. rewrite ParseUint_kind.
      change (String.eqb (String c s) "") with false. cbv iota.
      rewrite Big, A. reflexivity.
Qed.

(** [ParseInt] in closed form. *)
Lemma ParseInt_kind (value : string) :
  match integerOutcomeOf value with
  | IntegerOk n => ParseInt value = (n, None)
  | IntegerRange =>
      exists bound, ParseInt value = (bound, Some (rangeError "ParseInt" value))
  | IntegerSyntax => ParseInt value = (0, Some (syntaxError "ParseInt" value))
  end.
Proof.
  destruct value as [|c rest]; [reflexivity|].
  rewrite ParseInt_afterSign. unfold integerOutcomeOf. cbn [dropSign].
  destruct (Ascii.eqb_spec c "+") as [->|Hp].
  - cbn [orb]. change (Ascii.eqb "+" "-") with false.
    rewrite afterSign_kind.
    destruct (String.eqb rest ""); [reflexivity|].
    destruct (maxUint64 <? prefixValue rest 0); [eauto|].
    destruct (negb (allDigits rest)); [reflexivity|]. cbv zeta.
    destruct ((minInt64 <=? prefixValue rest 0) && (prefixValue rest 0 <=? maxInt64));
      [reflexivity | eauto].
  - destruct (Ascii.eqb c "-"); cbn [orb]; rewrite afterSign_kind.
    + destruct (String.eqb rest ""); [reflexivity|].
      destruct (maxUint64 <? prefixValue rest 0); [eauto|].
      destruct (negb (allDigits rest)); [reflexivity|]. cbv zeta.
      destruct ((minInt64 <=? - prefixValue rest 0)
                && (- prefixValue rest 0 <=? maxInt64)); [reflexivity | eauto].
    + change (String.eqb (String c rest) "") with false. cbv iota.
      destruct (maxUint64 <? prefixValue (String c rest) 0); [eauto|].
      destruct (negb (allDigits (String c rest))); [reflexivity|]. cbv zeta.
      destruct ((minInt64 <=? prefixValue (String c rest) 0)
                && (prefixValue (String c rest) 0 <=? maxInt64));
        [reflexivity | eauto].
Qed.

End IntegerKinds.

Section FurtherIntegers.
Context `{U : Unicode}.

(** The value of a conversion to an integer, read off the text. *)
Lemma integer_value (value : string) :
  fst (ConvertStringToType value "integer") =
  match integerOutcomeOf value with
  | IntegerOk n => Some (of_int64 n)
  | _ => None
  end.
Proof.
  rewrite (convert_integer value "integer" eq_refl).
  pose proof (ParseInt_kind value) as K.
  destruct (integerOutcomeOf value) as [n| |].
  - now rewrite K.
  - destruct K as [bound ->]. reflexivity.
  - now rewrite K.
Qed.

(** X1.  An integer failure tells the caller what went wrong through the
    error it wraps.  It wraps [strconv]'s range error when the digits
    after the optional sign already pass [2^64 - 1], whatever follows
    them, and when the text is a well-formed integer outside the int64
    range; it wraps the syntax error in every other failure. *)
Theorem integer_error_kind (value : string) :
  match integerOutcomeOf value with
  | IntegerOk n =>
      ConvertStringToType value "integer" = (Some (of_int64 n), None)
  | IntegerRange =>
      exists e, ConvertStringToType value "integer" = (None, Some e)
                /\ Unwrap e = Some (strconv.rangeError "ParseInt" value)
  | IntegerSyntax =>
      exists e, ConvertStringToType value "integer" = (None, Some e)
                /\ Unwrap e = Some (strconv.syntaxError "ParseInt" value)
  end.
Proof.
  rewrite (convert_integer value "integer" eq_refl).
  pose proof (ParseInt_kind value) as K.
  destruct (integerOutcomeOf value) as [n| |].
  - now rewrite K.
  - destruct K as [bound ->]. eexists. split; reflexivity.
  - rewrite K. eexists. split; reflexivity.
Qed.

End FurtherIntegers.

Lemma digitString_head (s : string) :
  digitString s = true ->
  exists c s', s = String c s' /\ isDigit c = true /\ allDigits s = true.
Proof.
  unfold digitString, allDigits. destruct s as [|c s']; [discriminate|].
  cbn [String.eqb negb andb list_ascii_of_string forallb].
  intros A. exists c, s'. apply andb_true_iff in A as A'. destruct A' as [D _].
  now repeat split.
Qed.

Lemma isDigit_not_sign (c : ascii) :
  isDigit c = true -> Ascii.eqb c "+" = false /\ Ascii.eqb c "-" = false.
Proof.
  intros D. split.
  - destruct (Ascii.eqb_spec c "+") as [->|]; [discriminate D | reflexivity].
  - destruct (Ascii.eqb_spec c "-") as [->|]; [discriminate D | reflexivity].
Qed.

(** The outcome for a string of digits, bare and under either sign. *)
Lemma integerOutcome_digits (s : string) :
  digitString s = true ->
  let v := prefixValue s 0 in
  integerOutcomeOf s = (if v <=? maxInt64 then IntegerOk v else IntegerRange)
  /\ integerOutcomeOf (String "+" s)
     = (if v <=? maxInt64 then IntegerOk v else IntegerRange)
  /\ integerOutcomeOf (String "-" s)
     = (if v <=? 2 ^ 63 then IntegerOk (- v) else IntegerRange).
Proof.
  intros DS v.
  destruct (digitString_head s DS) as (c & s' & -> & D & A).
  destruct (isDigit_not_sign c D) as [N1 N2].
  pose proof (prefixValue_grows (String c s') 0 ltac:(lia)) as G. fold v in G.
  assert (Bare : forall value neg,
            dropSign value = String c s' ->
            match value with
            | String x _ => Ascii.eqb x "-"
            | "" => false
            end = neg ->
            integerOutcomeOf value =
            if strconv.maxUint64 <? v then IntegerRange
            else let n := if neg then - v else v in
                 if (minInt64 <=? n) && (n <=? maxInt64) then IntegerOk n
                 else IntegerRange).
  { intros value neg Hu Hn. unfold integerOutcomeOf. rewrite Hu, Hn.
    change (String.eqb (String c s') "") with false. cbv iota.
    fold v. rewrite A. cbn [negb]. reflexivity. }
  unfold minInt64, maxInt64, strconv.maxUint64 in *.
  repeat split.
  - rewrite (Bare (String c s') false).
    + destruct (Z.ltb_spec (2 ^ 64 - 1) v); cbv zeta;
        destruct (Z.leb_spec (- 2 ^ 63) v); destruct (Z.leb_spec v (2 ^ 63 - 1));
        cbn [andb]; try reflexivity; lia.
    + cbn [dropSign]. now rewrite N1, N2.
    + exact N2.
  - rewrite (Bare (String "+" (String c s')) false); try reflexivity.
    destruct (Z.ltb_spec (2 ^ 64 - 1) v); cbv zeta;
      destruct (Z.leb_spec (- 2 ^ 63) v); destruct (Z.leb_spec v (2 ^ 63 - 1));
      cbn [andb]; try reflexivity; lia.
  - rewrite (Bare (String "-" (String c s')) true); try reflexivity.
    destruct (Z.ltb_spec (2 ^ 64 - 1) v); cbv zeta;
      destruct (Z.leb_spec (- 2 ^ 63) (- v));
      destruct (Z.leb_spec (- v) (2 ^ 63 - 1));
      destruct (Z.leb_spec v (2 ^ 63));
      cbn [andb]; try reflexivity; lia.
Qed.

Lemma digitString_zero (s : string) :
  digitString s = true ->
  digitString (String "0" s) = true
  /\ prefixValue (String "0" s) 0 = prefixValue s 0.
Proof.
  intros DS. destruct (digitString_head s DS) as (c & s' & -> & D & A).
  split; [|reflexivity].
  unfold digitString, allDigits in *.
  cbn [String.eqb negb andb list_ascii_of_string forallb] in *.
  exact A.
Qed.

Section FurtherIntegers2.
Context `{U : Unicode}.

(** X2.  A sign in front of a string of digits: a plus sign changes
    nothing, and a minus sign negates.  The bounds are those of int64 and
    so are not symmetric: the digits alone convert up to [2^63 - 1], under
    a minus sign up to [2^63]. *)
Theorem integer_sign (s : string) :
  digitString s = true ->
  let v := prefixValue s 0 in
  fst (ConvertStringToType s "integer")
  = (if v <=? 2 ^ 63 - 1 then Some (of_int64 v) else None)
  /\ fst (ConvertStringToType (String "+" s) "integer")
     = fst (ConvertStringToType s "integer")
  /\ fst (ConvertStringToType (String "-" s) "integer")
     = (if v <=? 2 ^ 63 then Some (of_int64 (- v)) else None).
Proof.
  intros DS v.
  destruct (integerOutcome_digits s DS) as (O1 & O2 & O3). fold v in O1, O2, O3.
  rewrite !integer_value, O1, O2, O3. change maxInt64 with (2 ^ 63 - 1).
  repeat split.
  - destruct (v <=? 2 ^ 63 - 1); reflexivity.
  - destruct (v <=? 2 ^ 63); reflexivity.
Qed.

(** X3.  Leading zeros do not change the integer: a zero put in front of
    a string of digits, after the sign if there is one, gives the same
    value (or the same failure).  Nothing is read as octal. *)
Theorem integer_leading_zero (s : string) :
  digitString s = true ->
  fst (ConvertStringToType (String "0" s) "integer")
  = fst (ConvertStringToType s "integer")
  /\ fst (ConvertStringToType (String "+" (String "0" s)) "integer")
     = fst (ConvertStringToType (String "+" s) "integer")
  /\ fst (ConvertStringToType (String "-" (String "0" s)) "integer")
     = fst (ConvertStringToType (String "-" s) "integer").
Proof.
  intros DS. destruct (digitString_zero s DS) as [DS0 V0].
  destruct (integerOutcome_digits s DS) as (O1 & O2 & O3).
  destruct (integerOutcome_digits _ DS0) as (Z1 & Z2 & Z3).
  cbv zeta in *. rewrite V0 in Z1, Z2, Z3.
  rewrite !integer_value, O1, O2, O3, Z1, Z2, Z3. now repeat split.
Qed.

(** X4.  The empty value is accepted by the string type only: with [""]
    or ["string"] as the type the result is the empty string, and with any
    other type the call fails. *)
Theorem empty_value (paramType : string) :
  fst (ConvertStringToType "" paramType)
  = if String.eqb (effective paramType) "string"
    then Some (of_string "") else None.
Proof.
  destruct (convert_cases "" paramType)
    as [[E ->] | [[E ->] | [[E ->] | [[E ->] | [O ->]]]]];
    try (rewrite E; reflexivity).
  cbn [oneOf] in O. apply orb_false_iff in O. destruct O as [-> _]. reflexivity.
Qed.

End FurtherIntegers2.

(** *** Booleans: the case of the letters *)

Lemma lowerByte_sameLetter (x y : ascii) :
  sameLetter x y = true -> strings.lowerByte x = strings.lowerByte y.
Proof.
  unfold sameLetter. intros H.
  apply orb_true_iff in H. destruct H as [H|H];
    [apply orb_true_iff in H; destruct H as [H|H]|].
  - apply Ascii.eqb_eq in H. now subst.
  - apply andb_true_iff in H. destruct H as [Ux E]. apply Z.eqb_eq in E.
    assert (Uy : between "A" "Z" y = false).
    { unfold between in *. change (byte "A") with 65 in *.
      change (byte "Z") with 90 in *.
      apply andb_true_iff in Ux. destruct Ux as [X1 X2].
      apply Z.leb_le in X1, X2. apply andb_false_iff. right.
      apply Z.leb_gt. lia. }
    assert (Ly : strings.lowerByte y = y).
    { unfold strings.lowerByte. now rewrite Uy. }
    rewrite Ly. apply Ascii.eqb_eq. rewrite (lowerByte_matches x y Uy), Ux.
    cbn [andb]. apply Z.eqb_eq in E. rewrite E. apply orb_true_r.
  - apply andb_true_iff in H. destruct H as [Uy E]. apply Z.eqb_eq in E.
    assert (Ux : between "A" "Z" x = false).
    { unfold between in *. change (byte "A") with 65 in *.
      change (byte "Z") with 90 in *.
      apply andb_true_iff in Uy. destruct Uy as [Y1 Y2].
      apply Z.leb_le in Y1, Y2. apply andb_false_iff. right.
      apply Z.leb_gt. lia. }
    assert (Lx : strings.lowerByte x = x).
    { unfold strings.lowerByte. now rewrite Ux. }
    rewrite Lx. symmetry. apply Ascii.eqb_eq.
    rewrite (lowerByte_matches y x Ux), Uy.
    cbn [andb]. apply Z.eqb_eq in E. rewrite E. apply orb_true_r.
Qed.

Lemma lowerASCII_equalFold (a : string) :
  forall b, equalFold a b = true -> strings.lowerASCII a = strings.lowerASCII b.
Proof.
  induction a as [|x a IH]; intros [|y b] H; try discriminate; [reflexivity|].
  cbn [equalFold] in H. apply andb_true_iff in H. destruct H as [L H].
  cbn [strings.lowerASCII].
  now rewrite (lowerByte_sameLetter x y L), (IH b H).
Qed.

Section FurtherBooleans.
Context `{U : Unicode}.

(** X5.  For ASCII text the conversion to a boolean does not look at the
    case of the letters: two values that differ only in letter case give
    the same boolean, or both fail. *)
Theorem boolean_ignores_case (v1 v2 : string) :
  isASCII v1 = true -> isASCII v2 = true -> equalFold v1 v2 = true ->
  fst (ConvertStringToType v1 "boolean") = fst (ConvertStringToType v2 "boolean").
Proof.
  intros A1 A2 F.
  rewrite (convert_boolean v1 "boolean" eq_refl).
  rewrite (convert_boolean v2 "boolean" eq_refl).
  rewrite (ToLower_ASCII v1 A1), (ToLower_ASCII v2 A2).
  rewrite (lowerASCII_equalFold v1 v2 F).
  destruct (oneOf (strings.lowerASCII v2) truthy); [reflexivity|].
  destruct (oneOf (strings.lowerASCII v2) falsy); reflexivity.
Qed.

(** X6.  What a failure wraps.  A failure for the type number wraps the
    [*strconv.NumError] of [ParseFloat], and one for the type integer that
    of [ParseInt]: its [Num] is the value and its [Err] is [ErrSyntax] or
    [ErrRange].  A failure for the type boolean, or for a type that is not
    supported, wraps nothing: [errors.Unwrap] gives nil. *)
Theorem failure_cause (value paramType : string) (e : error) :
  ConvertStringToType value paramType = (None, Some e) ->
  match Unwrap e with
  | Some cause =>
      (paramType = "number"
       /\ (cause = NumError "ParseFloat" value strconv.ErrSyntax
           \/ cause = NumError "ParseFloat" value strconv.ErrRange))
      \/ (paramType = "integer"
          /\ (cause = NumError "ParseInt" value strconv.ErrSyntax
              \/ cause = NumError "ParseInt" value strconv.ErrRange))
  | None =>
      paramType = "boolean"
      \/ ~ In paramType [""; "string"; "number"; "integer"; "boolean"]
  end.
Proof.
  intros C.
  assert (Eff : forall t, effective paramType = t -> t <> "string" ->
                          paramType = t).
  { intros t <- Ht. unfold effective in *.
    destruct (String.eqb paramType ""); [congruence | reflexivity]. }
  destruct (convert_cases value paramType)
    as [[E R] | [[E R] | [[E R] | [[E R] | [O R]]]]];
    rewrite R in C.
  - discriminate C.
  - destruct (strconv.ParseFloat value) as [f [err|]] eqn:P; inversion C.
    cbn [Unwrap]. left. split; [apply Eff; [assumption | discriminate]|].
    exact (ParseFloat_error value f err P).
  - pose proof (ParseInt_kind value) as K.
    destruct (strconv.ParseInt value) as [n [err|]] eqn:P; inversion C.
    cbn [Unwrap]. right. split; [apply Eff; [assumption | discriminate]|].
    destruct (integerOutcomeOf value).
    + discriminate K.
    + destruct K as [b K]. inversion K. now right.
    + inversion K. now left.
  - destruct (oneOf _ truthy); [discriminate C|].
    destruct (oneOf _ falsy); inversion C.
    cbn [Unwrap]. left. apply Eff; [assumption | discriminate].
  - inversion C. cbn [Unwrap]. right.
    intros H. cbn [In] in H.
    destruct H as [<-|[<-|[<-|[<-|[<-|[]]]]]]; discriminate O.
Qed.

End FurtherBooleans.

(** *** Numbers: what rounding can return *)

Section Rounding.
Import strconv.

Lemma shr_1_bounds (mrs : shr_record) :
  0 <= shr_m mrs -> 0 <= shr_m (shr_1 mrs) <= shr_m mrs.
Proof.
  destruct mrs as [m r s]. cbn [shr_m]. intros Hm.
  destruct m as [|[p|p|]|p]; cbn [shr_1 shr_m]; lia.
Qed.

Lemma iter_shr_1_bounds (p : positive) :
  forall mrs, 0 <= shr_m mrs -> 0 <= shr_m (iter_pos shr_1 p mrs) <= shr_m mrs.
Proof.
  induction p as [p IH|p IH|]; intros mrs Hm; cbn [iter_pos].
  - pose proof (shr_1_bounds mrs Hm) as B1.
    pose proof (IH (shr_1 mrs) ltac:(lia)) as B2.
    pose proof (IH (iter_pos shr_1 p (shr_1 mrs)) ltac:(lia)) as B3. lia.
  - pose proof (IH mrs Hm) as B2.
    pose proof (IH (iter_pos shr_1 p mrs) ltac:(lia)) as B3. lia.
  - now apply shr_1_bounds.
Qed.

Lemma shr_fexp_bounds (m e : Z) (l : location) :
  0 <= m ->
  0 <= shr_m (fst (shr_fexp prec emax m e l)) <= m
  /\ snd (shr_fexp prec emax m e l)
     <= Z.max e (fexp prec emax (Zdigits2 m + e)).
Proof.
  intros Hm. unfold shr_fexp, shr.
  assert (H0 : shr_m (shr_record_of_loc m l) = m).
  { destruct l as [|[]]; reflexivity. }
  destruct (fexp prec emax (Zdigits2 m + e) - e) as [|p|p] eqn:E;
    cbn [fst snd]; rewrite ?H0; try lia.
  pose proof (iter_shr_1_bounds p (shr_record_of_loc m l) ltac:(lia)) as B.
  rewrite H0 in B. lia.
Qed.

Lemma round_nearest_even_bounds (m : Z) (l : location) :
  0 <= m -> m <= round_nearest_even m l <= m + 1.
Proof.
  intros Hm. destruct l as [|[]]; cbn [round_nearest_even]; try lia.
  destruct (Z.even m); lia.
Qed.

(** The result of rounding a non-negative mantissa: a zero, a finite
    number or an infinity of the given sign, never a NaN; [e2] bounds the
    exponent before the test for overflow. *)
Lemma binary_round_aux_shape (sx : bool) (mx ex : Z) (lx : location) :
  0 <= mx ->
  binary_round_aux prec emax sx mx ex lx <> S754_nan.
Proof.
  intros Hm. unfold binary_round_aux.
  destruct (shr_fexp prec emax mx ex lx) as [mrs' e'] eqn:S1.
  pose proof (shr_fexp_bounds mx ex lx Hm) as [B1 _]. rewrite S1 in B1.
  cbn [fst] in B1.
  pose proof (round_nearest_even_bounds (shr_m mrs') (loc_of_shr_record mrs')
                ltac:(lia)) as R.
  destruct (shr_fexp prec emax
              (round_nearest_even (shr_m mrs') (loc_of_shr_record mrs')) e'
              loc_Exact) as [mrs'' e''] eqn:S2.
  pose proof (shr_fexp_bounds
                (round_nearest_even (shr_m mrs') (loc_of_shr_record mrs'))
                e' loc_Exact ltac:(lia)) as [B2 _].
  rewrite S2 in B2. cbn [fst] in B2.
  destruct (shr_m mrs'') as [|m|m]; try discriminate; [|lia].
  destruct (e'' <=? emax - prec); discriminate.
Qed.

Lemma nearest_not_nan (neg : bool) (num den : Z) :
  0 <= num -> 0 < den -> nearest neg num den <> S754_nan.
Proof.
  intros Hn Hd. unfold nearest, SFdiv_core_binary.
  match goal with
  | |- context [Z.div_eucl ?a den] =>
      pose proof (Z_div_mod a den ltac:(lia)) as DM;
      assert (Ha : 0 <= a); [|destruct (Z.div_eucl a den) as [q r]]
  end.
  { destruct (0 - 0 - _) as [|p|p]; try lia. apply Z.shiftl_nonneg. lia. }
  apply binary_round_aux_shape. destruct DM as [DM1 DM2]. nia.
Qed.

Lemma floatBits_not_nan (b : decimal) :
  0 <= d b -> fst (floatBits b) <> S754_nan.
Proof.
  intros Hd. unfold floatBits.
  destruct (d_nd b =? 0); [discriminate|].
  destruct (310 <? d_dp b); [discriminate|].
  destruct (d_dp b <? -330); [discriminate|].
  destruct (d_trunc b); cbn [fst].
  - destruct (0 <=? d_dp b - d_nd b - 1) eqn:E.
    + apply nearest_not_nan; [|lia].
      apply Z.leb_le in E. apply Z.mul_nonneg_nonneg; [lia|].
      now apply Z.pow_nonneg.
    + apply nearest_not_nan; [lia|]. apply Z.leb_gt in E.
      apply Z.pow_pos_nonneg; lia.
  - destruct (0 <=? d_dp b - d_nd b) eqn:E.
    + apply nearest_not_nan; [|lia].
      apply Z.leb_le in E. apply Z.mul_nonneg_nonneg; [lia|].
      now apply Z.pow_nonneg.
    + apply nearest_not_nan; [lia|]. apply Z.leb_gt in E.
      apply Z.pow_pos_nonneg; lia.
Qed.

Lemma atofHex_not_nan (s : string) (mantissa exp : Z) (neg trunc : bool) :
  fst (atofHex s mantissa exp neg trunc) <> S754_nan.
Proof.
  unfold atofHex. cbn [fst].
  destruct mantissa as [|m|m]; try discriminate.
  destruct trunc.
  - apply binary_round_aux_shape. lia.
  - unfold binary_round.
    destruct (shl_align m exp _) as [mz ez].
    apply binary_round_aux_shape. lia.
Qed.

(** The digits collected by [decimal.set] are a non-negative number. *)
Lemma setDigits_nonneg (s : string) :
  forall b sawdot sawdigits,
    0 <= d b ->
    0 <= d (fst (fst (fst (setDigits s b sawdot sawdigits)))).
Proof.
  induction s as [|c s IH]; intros b sd sg Hb; [exact Hb|].
  cbn [setDigits].
  destruct (Ascii.eqb c "_"); [now apply IH|].
  destruct (Ascii.eqb c ".").
  { destruct sd; [exact Hb | now apply IH]. }
  destruct (isDigit c) eqn:D; [|exact Hb].
  pose proof (isDigit_value c D) as Hd.
  destruct (Ascii.eqb c "0" && (d_nd b =? 0)); [now apply IH|].
  destruct (d_nd b <? 800); apply IH; cbn [d]; lia.
Qed.

Lemma decimal_set_nonneg (s : string) (b : decimal) :
  decimal_set s = Some b -> 0 <= d b.
Proof.
  assert (G : forall neg r, setDecimal neg r = Some b -> 0 <= d b).
  { intros neg r. unfold setDecimal.
    pose proof (setDigits_nonneg r (Decimal 0 0 0 neg false) false false
                  ltac:(cbn; lia)) as N.
    destruct (setDigits r _ false false) as [[[b0 sd] sg] r0].
    cbn [fst] in N.
    destruct sg; cbn [negb]; [|discriminate].
    assert (N' : 0 <= d (if sd then b0
                         else Decimal (d b0) (d_nd b0) (d_nd b0) (d_neg b0)
                                      (d_trunc b0))).
    { destruct sd; exact N. }
    revert N'.
    generalize (if sd then b0
                else Decimal (d b0) (d_nd b0) (d_nd b0) (d_neg b0) (d_trunc b0)).
    intros b1 N'. cbv zeta.
    destruct r0 as [|c r1]; [intros E; inversion E; subst; exact N'|].
    destruct (lower c =? byte "e"); [|discriminate].
    destruct r1 as [|c1 r2]; [discriminate|].
    destruct (Ascii.eqb c1 "+"); [|destruct (Ascii.eqb c1 "-")];
      cbv beta iota.
    1, 2: destruct r2 as [|c2 r3]; [discriminate|].
    all: match goal with
         | |- context [negb (isDigit ?c)] =>
             destruct (negb (isDigit c)); [discriminate|]
         end.
    all: match goal with
         | |- context [exponentLoop ?t 0 0 false] =>
             destruct (exponentLoop t 0 0 false) as [[i e] u]
         end.
    all: match goal with
         | |- context [?i =? len ?t] => destruct (i =? len t); [|discriminate]
         end.
    all: intros E; inversion E; subst; cbn [d]; exact N'. }
  unfold decimal_set. destruct s as [|c0 s1]; [discriminate|].
  destruct (Ascii.eqb c0 "+"); [apply G|].
  destruct (Ascii.eqb c0 "-"); apply G.
Qed.

(** A successful [ParseFloat] either read a special value over the whole
    text, or returns a number that is neither an infinity nor a NaN. *)
Lemma ParseFloat_success (s : string) (f : float64) :
  ParseFloat s = (f, None) ->
  special s = Some (f, len s)
  \/ (special s = None /\ isInf f = false /\ f <> S754_nan).
Proof.
  unfold ParseFloat, atof64.
  destruct (special s) as [[val n]|].
  - cbn [negb andb]. rewrite andb_true_r.
    destruct (Z.eqb_spec n (len s)) as [->|]; cbn [negb]; intros E; inversion E.
    now left.
  - right. split; [reflexivity|]. revert H.
    destruct (readFloat s) as [[[[[[m ex] neg] tr] hex] n] ok].
    destruct ok; cbn [negb].
    + destruct hex.
      * pose proof (atofHex_not_nan (slice_to n s) m ex neg tr) as NN.
        unfold atofHex in *. cbn [fst] in NN.
        match goal with
        | |- context [isInf ?x] => destruct (isInf x) eqn:I
        end.
        -- change (error_eqb ErrRange ErrSyntax) with false.
           cbn [negb]. rewrite andb_true_r.
           destruct (n =? len s); cbn [negb]; intros E; inversion E.
        -- rewrite andb_true_r.
           destruct (n =? len s); cbn [negb]; intros E; inversion E.
           subst f. now split.
      * destruct (decimal_set (slice_to n s)) as [b|] eqn:DS.
        -- pose proof (floatBits_overflow b) as O.
           pose proof (floatBits_not_nan b (decimal_set_nonneg _ _ DS)) as NN.
           destruct (floatBits b) as [g ovf]. cbn [fst snd] in O, NN. subst ovf.
           destruct (isInf g) eqn:I.
           ++ change (error_eqb ErrRange ErrSyntax) with false.
              cbn [negb]. rewrite andb_true_r.
              destruct (n =? len s); cbn [negb]; intros E; inversion E.
           ++ rewrite andb_true_r.
              destruct (n =? len s); cbn [negb]; intros E; inversion E.
              subst f. now split.
        -- change (error_eqb ErrSyntax ErrSyntax) with true.
           cbn [negb]. rewrite andb_false_r. intros E; inversion E.
    + change (error_eqb ErrSyntax ErrSyntax) with true.
      cbn [negb]. rewrite andb_false_r. intros E; inversion E.
Qed.

End Rounding.

(** *** Numbers: infinities and NaN *)

Lemma byte_injective (a b : ascii) : byte a = byte b -> a = b.
Proof.
  unfold byte. intros E. apply N2Z.inj in E.
  rewrite <- (ascii_N_embedding a), <- (ascii_N_embedding b). now rewrite E.
Qed.

Lemma folded_letter (c q : ascii) :
  ((if between "A" "Z" c then byte c + (byte "a" - byte "A") else byte c)
   =? byte q) = true ->
  Ascii.eqb c q || (between "A" "Z" c && (byte c + 32 =? byte q)) = true.
Proof.
  change (byte "a" - byte "A") with 32.
  destruct (between "A" "Z" c); intros E.
  - rewrite E. apply orb_true_r.
  - apply Z.eqb_eq, byte_injective in E. subst. now rewrite Ascii.eqb_refl.
Qed.

Lemma matched_letter (c q : ascii) :
  Ascii.eqb c q || (between "A" "Z" c && (byte c + 32 =? byte q)) = true ->
  c = q \/ c = ascii_of_N (Z.to_N (byte q - 32)).
Proof.
  intros H. apply orb_true_iff in H. destruct H as [H|H].
  - left. now apply Ascii.eqb_eq.
  - right. apply andb_true_iff in H. destruct H as [_ E]. apply Z.eqb_eq in E.
    replace (byte q - 32) with (byte c) by lia.
    unfold byte. now rewrite N2Z.id, ascii_N_embedding.
Qed.

Section Specials.
Import strconv.

Lemma commonPrefixLen_bounds (t : string) :
  forall p, 0 <= commonPrefixLenIgnoreCase t p <= len t.
Proof.
  induction t as [|c t IH]; intros p.
  - cbn. unfold len. simpl. lia.
  - destruct p as [|q p]; cbn [commonPrefixLenIgnoreCase];
      rewrite len_String; pose proof (IH "") as B0; [lia|].
    match goal with |- context [if ?b then _ else _] => destruct b end;
      [pose proof (IH p) | ]; lia.
Qed.

(** A text that is matched to its end is a prefix of the word, up to the
    case of its letters. *)
Lemma commonPrefixLen_matches (t : string) :
  forall p,
    commonPrefixLenIgnoreCase t p = len t ->
    matchesIgnoringCase t (substring 0 (String.length t) p) = true.
Proof.
  induction t as [|c t IH]; intros p E.
  - destruct p; reflexivity.
  - rewrite len_String in E. pose proof (commonPrefixLen_bounds t "") as B0.
    destruct p as [|q p]; cbn [commonPrefixLenIgnoreCase] in E; [lia|].
    match type of E with
    | (if ?b then _ else _) = _ => destruct b eqn:F; [|lia]
    end.
    cbn [String.length substring matchesIgnoringCase].
    rewrite (folded_letter c q F). cbn [andb]. apply IH. lia.
Qed.

Lemma len_length (t : string) (n : nat) :
  len t = Z.of_nat n -> String.length t = n.
Proof. unfold len. lia. Qed.

(** What [special] accepts over a whole text [t] after the sign. *)
Lemma infinity_spelled (t : string) (n : Z) :
  (let n0 := commonPrefixLenIgnoreCase t "infinity" in
   let n1 := if (3 <? n0) && (n0 <? 8) then 3 else n0 in
   ((n1 =? 3) || (n1 =? 8) = true /\ n1 = len t)) ->
  matchesIgnoringCase t "inf" || matchesIgnoringCase t "infinity" = true.
Proof.
  cbv zeta. pose proof (commonPrefixLen_bounds t "infinity") as B.
  set (n0 := commonPrefixLenIgnoreCase t "infinity") in *.
  intros [K L].
  assert (E0 : n0 = len t).
  { destruct ((3 <? n0) && (n0 <? 8)) eqn:A; [|assumption].
    apply andb_true_iff in A. destruct A as [A1 A2].
    apply Z.ltb_lt in A1, A2. lia. }
  pose proof (commonPrefixLen_matches t "infinity" E0) as M.
  assert (L3 : len t = 3 \/ len t = 8).
  { rewrite <- L. apply orb_true_iff in K.
    destruct K as [K|K]; apply Z.eqb_eq in K; auto. }
  destruct L3 as [L3|L3].
  - rewrite (len_length t 3 L3) in M. cbn [substring] in M.
    rewrite M. reflexivity.
  - rewrite (len_length t 8 L3) in M. cbn [substring] in M.
    rewrite M. apply orb_true_r.
Qed.

Lemma special_spelled (s : string) (f : float64) :
  special s = Some (f, len s) ->
  (f = S754_infinity (startsWithMinus s) /\ spellsInfinity s = true)
  \/ (f = S754_nan /\ spellsNaN s = true).
Proof.
  assert (I : forall t sign nsign,
            (let n := commonPrefixLenIgnoreCase t "infinity" in
             let n := if (3 <? n) && (n <? 8) then 3 else n in
             if (n =? 3) || (n =? 8) then Some (Inf sign, nsign + n) else None)
            = Some (f, nsign + len t) ->
            f = Inf sign
            /\ matchesIgnoringCase t "inf" || matchesIgnoringCase t "infinity"
               = true).
  { intros t sign nsign. cbv zeta.
    remember (commonPrefixLenIgnoreCase t "infinity") as n0 eqn:En0.
    remember (if (3 <? n0) && (n0 <? 8) then 3 else n0) as n1 eqn:En1.
    destruct ((n1 =? 3) || (n1 =? 8)) eqn:K; [|discriminate].
    intros E. inversion E. split; [reflexivity|].
    apply (infinity_spelled t 0). cbv zeta. rewrite <- En0, <- En1.
    split; [exact K | lia]. }
  destruct s as [|c rest]; [discriminate|].
  unfold special, spellsInfinity, spellsNaN, startsWithMinus. cbn [dropSign].
  rewrite len_String.
  destruct (Ascii.eqb_spec c "+") as [->|Hp].
  { cbn [orb]. change (Ascii.eqb "+" "-") with false.
    replace (len rest + 1) with (1 + len rest) by lia.
    intros E. apply I in E. destruct E as [-> M]. left. now split. }
  destruct (Ascii.eqb_spec c "-") as [->|Hm].
  { cbn [orb]. replace (len rest + 1) with (1 + len rest) by lia.
    intros E. apply I in E. destruct E as [-> M]. left. now split. }
  cbn [orb].
  destruct (Ascii.eqb c "i" || Ascii.eqb c "I").
  { replace (len rest + 1) with (0 + len (String c rest))
      by (rewrite len_String; lia).
    intros E. apply I in E. destruct E as [-> M]. left. now split. }
  destruct (Ascii.eqb c "n" || Ascii.eqb c "N"); [|discriminate].
  destruct (Z.eqb_spec (commonPrefixLenIgnoreCase (String c rest) "nan") 3)
    as [E3|]; [|discriminate].
  intros E. inversion E. right. split; [reflexivity|].
  assert (L : len (String c rest) = 3) by (rewrite len_String; lia).
  pose proof (commonPrefixLen_matches (String c rest) "nan" ltac:(lia)) as M.
  rewrite (len_length _ 3 L) in M. exact M.
Qed.

End Specials.

Section FurtherNumbers.
Context `{U : Unicode}.

(** X7.  A conversion to a number returns an infinity only for a text
    that spells one -- [inf] or [infinity] in any letter case, after an
    optional sign -- and a NaN only for [nan] in any letter case.  A
    number too large for a float64 is a failure, never an infinity. *)
Theorem number_special_only_spelled (value : string) (f : strconv.float64) :
  ConvertStringToType value "number" = (Some (of_float64 f), None) ->
  (strconv.isInf f = true ->
   spellsInfinity value = true /\ f = S754_infinity (startsWithMinus value))
  /\ (f = S754_nan -> spellsNaN value = true).
Proof.
  rewrite (convert_number value "number" eq_refl).
  destruct (strconv.ParseFloat value) as [g [err|]] eqn:P; [discriminate|].
  intros E. inversion E; subst g.
  destruct (ParseFloat_success value f P) as [S | (_ & NI & NN)].
  - destruct (special_spelled value f S) as [[-> Sp] | [-> Sp]].
    + split; [now split | discriminate].
    + split; [discriminate | intros _; exact Sp].
  - split; [congruence | contradiction].
Qed.

End FurtherNumbers.

Section FurtherNumbers2.
Context `{U : Unicode}.

Lemma matches_len (t : string) :
  forall p, matchesIgnoringCase t p = true -> len t = len p.
Proof.
  induction t as [|c t IH]; intros [|q p] M; try discriminate; [reflexivity|].
  cbn [matchesIgnoringCase] in M. apply andb_true_iff in M.
  destruct M as [_ M]. rewrite !len_String, (IH p M). reflexivity.
Qed.

Lemma matches_commonPrefixLen (t : string) :
  forall p1 p2,
    lowerCaseText p1 = true ->
    matchesIgnoringCase t p1 = true ->
    strconv.commonPrefixLenIgnoreCase t (p1 ++ p2) = len t.
Proof.
  unfold lowerCaseText.
  induction t as [|c t IH]; intros [|q p1] p2 LC M; try discriminate.
  - destruct p2; reflexivity.
  - cbn [list_ascii_of_string forallb] in LC.
    apply andb_true_iff in LC. destruct LC as [Lq LC].
    apply negb_true_iff in Lq.
    cbn [matchesIgnoringCase] in M. apply andb_true_iff in M.
    destruct M as [Mc M].
    cbn [append strconv.commonPrefixLenIgnoreCase].
    change (byte "a" - byte "A") with 32.
    assert (F : (if between "A" "Z" c then byte c + 32 else byte c) = byte q).
    { apply orb_true_iff in Mc. destruct Mc as [Mc|Mc].
      - apply Ascii.eqb_eq in Mc. subst. now rewrite Lq.
      - apply andb_true_iff in Mc. destruct Mc as [-> E]. now apply Z.eqb_eq. }
    rewrite F, Z.eqb_refl, (IH p1 p2 LC M), len_String. lia.
Qed.

Lemma infinity_length (t : string) :
  matchesIgnoringCase t "inf" || matchesIgnoringCase t "infinity" = true ->
  strconv.commonPrefixLenIgnoreCase t "infinity" = len t
  /\ (len t = 3 \/ len t = 8).
Proof.
  intros H. apply orb_true_iff in H. destruct H as [H|H].
  - split; [exact (matches_commonPrefixLen t "inf" "inity" eq_refl H)|].
    left. exact (matches_len t "inf" H).
  - split; [exact (matches_commonPrefixLen t "infinity" "" eq_refl H)|].
    right. exact (matches_len t "infinity" H).
Qed.

Lemma infinity_head (t : string) :
  matchesIgnoringCase t "inf" || matchesIgnoringCase t "infinity" = true ->
  exists c rest, t = String c rest /\ (c = "i"%char \/ c = "I"%char).
Proof.
  intros H. destruct t as [|c rest]; [discriminate H|].
  exists c, rest. split; [reflexivity|].
  apply orb_true_iff in H.
  destruct H as [H|H]; cbn [matchesIgnoringCase] in H;
    apply andb_true_iff in H; destruct H as [L _];
    apply matched_letter in L; exact L.
Qed.

Lemma infinity_accepted (t : string) :
  matchesIgnoringCase t "inf" || matchesIgnoringCase t "infinity" = true ->
  strconv.ParseFloat t = (S754_infinity false, None)
  /\ strconv.ParseFloat (String "+" t) = (S754_infinity false, None)
  /\ strconv.ParseFloat (String "-" t) = (S754_infinity true, None).
Proof.
  intros H. destruct (infinity_length t H) as [C L].
  assert (S : forall sign nsign,
            (let n := strconv.commonPrefixLenIgnoreCase t "infinity" in
             let n := if (3 <? n) && (n <? 8) then 3 else n in
             if (n =? 3) || (n =? 8)
             then Some (strconv.Inf sign, nsign + n) else None)
            = Some (strconv.Inf sign, nsign + len t)).
  { intros sign nsign. cbv zeta. rewrite C.
    destruct L as [-> | ->]; reflexivity. }
  assert (P : forall s sign,
            strconv.special s = Some (strconv.Inf sign, len s) ->
            strconv.ParseFloat s = (strconv.Inf sign, None)).
  { intros s sign E. unfold strconv.ParseFloat, strconv.atof64.
    rewrite E, Z.eqb_refl. reflexivity. }
  repeat split.
  - destruct (infinity_head t H) as (c & rest & -> & Hc).
    apply (P _ 1). rewrite <- (Z.add_0_l (len (String c rest))), <- S.
    destruct Hc as [-> | ->]; reflexivity.
  - apply (P _ 1). rewrite len_String, Z.add_comm, <- S. reflexivity.
  - apply (P _ (-1)). rewrite len_String, Z.add_comm, <- S. reflexivity.
Qed.

Lemma nan_accepted (t : string) :
  matchesIgnoringCase t "nan" = true ->
  strconv.ParseFloat t = (S754_nan, None).
Proof.
  intros H.
  pose proof (matches_commonPrefixLen t "nan" "" eq_refl H) as C.
  pose proof (matches_len t "nan" H) as L. change (len "nan") with 3 in L.
  cbn [append] in C.
  destruct t as [|c rest]; [discriminate H|].
  assert (Hc : c = "n"%char \/ c = "N"%char).
  { cbn [matchesIgnoringCase] in H. apply andb_true_iff in H.
    destruct H as [Lc _]. apply matched_letter in Lc. exact Lc. }
  unfold strconv.ParseFloat, strconv.atof64.
  assert (S : strconv.special (String c rest) = Some (strconv.NaN, 3)).
  { unfold strconv.special. rewrite C, L.
    destruct Hc as [-> | ->]; reflexivity. }
  rewrite S, L. reflexivity.
Qed.

(** X8.  Every spelling is accepted: [inf] and [infinity] in any letter
    case convert to an infinity, negative under a minus sign, and [nan] in
    any letter case converts to a NaN. *)
Theorem number_special_spellings (value : string) :
  (if spellsInfinity value
   then ConvertStringToType value "number"
        = (Some (of_float64 (S754_infinity (startsWithMinus value))), None)
   else True)
  /\ (if spellsNaN value
      then ConvertStringToType value "number" = (Some (of_float64 S754_nan), None)
      else True).
Proof.
  split.
  - destruct (spellsInfinity value) eqn:S; [|exact I].
    rewrite (convert_number value "number" eq_refl).
    unfold spellsInfinity in S. destruct value as [|c rest]; [discriminate S|].
    cbn [dropSign startsWithMinus] in *.
    destruct (Ascii.eqb_spec c "+") as [->|Hp]; cbn [orb] in S.
    { destruct (infinity_accepted rest S) as (_ & -> & _). reflexivity. }
    destruct (Ascii.eqb_spec c "-") as [->|Hm]; cbn [orb] in S.
    { destruct (infinity_accepted rest S) as (_ & _ & ->). reflexivity. }
    destruct (infinity_accepted _ S) as (-> & _). reflexivity.
  - destruct (spellsNaN value) eqn:S; [|exact I].
    rewrite (convert_number value "number" eq_refl).
    now rewrite (nan_accepted value S).
Qed.

End FurtherNumbers2.

(** *** Numbers: the text of an integer *)

Section IntegerTexts.
Import strconv.

Lemma digits2_pos_bounds (p : positive) :
  2 ^ (Zpos (digits2_pos p) - 1) <= Zpos p < 2 ^ Zpos (digits2_pos p).
Proof.
  assert (Step : forall j x, 0 < j -> 2 ^ (j - 1) <= x < 2 ^ j ->
                 2 ^ (Z.succ j - 1) <= 2 * x
                 /\ 2 * x + 1 < 2 ^ Z.succ j).
  { intros j x Hj B.
    assert (P1 : 2 ^ j = 2 * 2 ^ (j - 1)).
    { replace j with (Z.succ (j - 1)) at 1 by lia. apply Z.pow_succ_r. lia. }
    assert (P2 : 2 ^ Z.succ j = 2 * 2 ^ j) by (apply Z.pow_succ_r; lia).
    replace (Z.succ j - 1) with j by lia. lia. }
  induction p as [p IH|p IH|]; cbn [digits2_pos].
  - rewrite Pos2Z.inj_succ, (Pos2Z.inj_xI p).
    pose proof (Step (Zpos (digits2_pos p)) (Zpos p) ltac:(lia) IH). lia.
  - rewrite Pos2Z.inj_succ, (Pos2Z.inj_xO p).
    pose proof (Step (Zpos (digits2_pos p)) (Zpos p) ltac:(lia) IH). lia.
  - cbn. lia.
Qed.

Lemma Zdigits2_unique (m k : Z) :
  2 ^ (k - 1) <= m < 2 ^ k -> 0 < k -> Zdigits2 m = k.
Proof.
  intros B Hk.
  assert (Hm : 0 < m).
  { pose proof (Z.pow_pos_nonneg 2 (k - 1) ltac:(lia) ltac:(lia)). lia. }
  destruct m as [|p|p]; try lia. cbn [Zdigits2].
  pose proof (digits2_pos_bounds p) as D.
  set (j := Zpos (digits2_pos p)) in *.
  assert (Hj : 0 < j) by (unfold j; lia).
  assert (j - 1 < k).
  { apply (Z.pow_lt_mono_r_iff 2); lia. }
  assert (k - 1 < j).
  { apply (Z.pow_lt_mono_r_iff 2); lia. }
  lia.
Qed.

Lemma Zdigits2_le (m k : Z) : 0 <= m < 2 ^ k -> 0 <= k -> Zdigits2 m <= k.
Proof.
  intros B Hk. destruct m as [|p|p]; [cbn [Zdigits2]; lia | | lia].
  cbn [Zdigits2].
  pose proof (digits2_pos_bounds p) as D.
  set (j := Zpos (digits2_pos p)) in *.
  assert (j - 1 < k); [|lia].
  apply (Z.pow_lt_mono_r_iff 2); lia.
Qed.

Lemma fexp_le (x y : Z) : x <= y -> fexp prec emax x <= fexp prec emax y.
Proof. unfold fexp, emin, prec, emax. lia. Qed.

(** Rounding a whole number below [2^64]: the result is no infinity. *)
Lemma nearest_whole_finite (neg : bool) (v : Z) :
  0 < v < 2 ^ 64 -> isInf (nearest neg v 1) = false.
Proof.
  intros Hv. unfold nearest, SFdiv_core_binary.
  assert (D1 : 1 <= Zdigits2 v).
  { destruct v as [|p|p]; try lia. cbn [Zdigits2]. lia. }
  change (Zdigits2 1) with 1.
  set (e' := Z.min (fexp prec emax (Zdigits2 v + 0 - (1 + 0))) (0 - 0)).
  assert (He : -53 <= e' <= 0).
  { unfold e', fexp, emin, prec, emax. lia. }
  set (m' := match 0 - 0 - e' with
             | 0 => v
             | Z.pos _ => Z.shiftl v (0 - 0 - e')
             | Z.neg _ => 0
             end).
  assert (Hm : 0 <= m' < 2 ^ 117).
  { unfold m'. destruct (0 - 0 - e') as [|p|p] eqn:E; try lia.
    rewrite Z.shiftl_mul_pow2 by lia. rewrite <- E.
    assert (2 ^ (0 - 0 - e') <= 2 ^ 53) by (apply Z.pow_le_mono_r; lia).
    assert (0 < 2 ^ (0 - 0 - e')) by (apply Z.pow_pos_nonneg; lia).
    change (2 ^ 117) with (2 ^ 64 * 2 ^ 53). nia. }
  pose proof (Z_div_mod m' 1 ltac:(lia)) as DM.
  destruct (Z.div_eucl m' 1) as [q r]. destruct DM as [DM1 DM2].
  assert (Hq : q = m') by lia. subst q. clear DM1 DM2.
  generalize (new_location 1 r). intros l.
  unfold binary_round_aux.
  pose proof (shr_fexp_bounds m' e' l ltac:(lia)) as [B1 E1].
  destruct (shr_fexp prec emax m' e' l) as [mrs1 e1]. cbn [fst snd] in B1, E1.
  pose proof (round_nearest_even_bounds (shr_m mrs1) (loc_of_shr_record mrs1)
                ltac:(lia)) as R.
  set (m2 := round_nearest_even (shr_m mrs1) (loc_of_shr_record mrs1)) in *.
  pose proof (shr_fexp_bounds m2 e1 loc_Exact ltac:(lia)) as [B2 E2].
  destruct (shr_fexp prec emax m2 e1 loc_Exact) as [mrs2 e2].
  cbn [fst snd] in B2, E2.
  assert (F1 : e1 <= 64).
  { pose proof (Zdigits2_le m' 117 Hm ltac:(lia)) as Dm.
    pose proof (fexp_le (Zdigits2 m' + e') 117 ltac:(lia)) as F.
    unfold fexp, emin, prec, emax in *. lia. }
  assert (F2 : e2 <= 971).
  { assert (Hm2 : 0 <= m2 < 2 ^ 118).
    { change (2 ^ 118) with (2 ^ 117 * 2). lia. }
    pose proof (Zdigits2_le m2 118 Hm2 ltac:(lia)) as Dm.
    pose proof (fexp_le (Zdigits2 m2 + e1) 182 ltac:(lia)) as F.
    unfold fexp, emin, prec, emax in *. lia. }
  destruct (shr_m mrs2) as [|m|m]; try reflexivity.
  unfold emax, prec. destruct (Z.leb_spec e2 (1024 - 53)); [reflexivity | lia].
Qed.

End IntegerTexts.

Section IntegerTexts2.
Import strconv.

(** An even mantissa of 54 bits with nothing lost is halved exactly. *)
Lemma binary_round_aux_exact (neg : bool) (p : positive) (e : Z) :
  Zdigits2 (Zpos p) = 53 -> -1074 <= e + 1 <= 971 ->
  binary_round_aux prec emax neg (Zpos p~0) e loc_Exact
  = S754_finite neg p (e + 1).
Proof.
  intros D He. cbn [Zdigits2] in D.
  unfold binary_round_aux, shr_fexp.
  cbn [Zdigits2 digits2_pos]. rewrite Pos2Z.inj_succ, D.
  replace (fexp prec emax (Z.succ 53 + e) - e) with 1
    by (unfold fexp, emin, prec, emax; lia).
  cbn [shr_record_of_loc shr iter_pos shr_1 shr_m loc_of_shr_record
       round_nearest_even Zdigits2 orb].
  rewrite D.
  replace (fexp prec emax (53 + (e + 1)) - (e + 1)) with 0
    by (unfold fexp, emin, prec, emax; lia).
  cbn [shr shr_m]. unfold emax, prec.
  destruct (Z.leb_spec (e + 1) (1024 - 53)); [reflexivity | lia].
Qed.

(** A whole number below [2^53] is a float64: rounding it changes
    nothing. *)
Lemma nearest_whole_exact (neg : bool) (v : Z) :
  0 < v < 2 ^ 53 ->
  exists m e,
    nearest neg v 1 = S754_finite neg m e /\ e <= 0 /\ Zpos m = v * 2 ^ (- e).
Proof.
  intros Hv.
  destruct v as [|pv|pv]; try lia.
  pose proof (digits2_pos_bounds pv) as B.
  set (d1 := Zpos (digits2_pos pv)) in *.
  assert (Hd : 1 <= d1 <= 53).
  { split; [unfold d1; lia|].
    apply (Zdigits2_le (Zpos pv) 53); lia. }
  unfold nearest, SFdiv_core_binary. cbn [Zdigits2 digits2_pos]. fold d1.
  assert (Emin : Z.min (fexp prec emax (d1 + 0 - (1 + 0))) (0 - 0) = d1 - 54).
  { unfold fexp, emin, prec, emax. lia. }
  rewrite Emin.
  assert (Es : 0 - 0 - (d1 - 54) = 54 - d1) by lia.
  rewrite Es.
  destruct (54 - d1) as [|ps|ps] eqn:Es'; try lia.
  rewrite Z.shiftl_mul_pow2 by lia. rewrite <- Es'.
  assert (P : 2 ^ (54 - d1) = 2 * 2 ^ (53 - d1)).
  { replace (54 - d1) with (Z.succ (53 - d1)) by lia.
    apply Z.pow_succ_r. lia. }
  assert (Q0 : 0 < 2 ^ (53 - d1)) by (apply Z.pow_pos_nonneg; lia).
  destruct (Zpos pv * 2 ^ (53 - d1)) as [|pq|pq] eqn:Eq; try lia.
  assert (Eq2 : Zpos pv * 2 ^ (54 - d1) = Zpos pq~0).
  { rewrite P, (Pos2Z.inj_xO pq), <- Eq. lia. }
  rewrite Eq2.
  pose proof (Z_div_mod (Zpos pq~0) 1 ltac:(lia)) as DM.
  destruct (Z.div_eucl (Zpos pq~0) 1) as [q r]. destruct DM as [DM1 DM2].
  assert (r = 0) by lia. assert (q = Zpos pq~0) by lia. subst q r.
  change (new_location 1 0) with loc_Exact.
  assert (Dq : Zdigits2 (Zpos pq) = 53).
  { apply Zdigits2_unique; [|lia]. rewrite <- Eq.
    assert (A1 : 2 ^ (53 - 1) = 2 ^ (d1 - 1) * 2 ^ (53 - d1)).
    { rewrite <- Z.pow_add_r by lia. f_equal. lia. }
    assert (A2 : 2 ^ 53 = 2 ^ d1 * 2 ^ (53 - d1)).
    { rewrite <- Z.pow_add_r by lia. f_equal. lia. }
    rewrite A1, A2. nia. }
  rewrite (binary_round_aux_exact neg pq (d1 - 54) Dq) by lia.
  exists pq, (d1 - 54 + 1). split; [reflexivity|]. split; [lia|].
  rewrite <- Eq. f_equal. f_equal. lia.
Qed.

End IntegerTexts2.

Section IntegerTexts3.
Import strconv.

Lemma digit_zero (c : ascii) : byte c - byte "0" = 0 -> c = "0"%char.
Proof. intros E. apply byte_injective. lia. Qed.

Lemma setDigits_allDigits (s : string) :
  forall b sawdot sawdigits,
    allDigits s = true -> decimalExact b ->
    prefixValue s (d b) < 2 ^ 64 ->
    exists b',
      setDigits s b sawdot sawdigits
      = (b', sawdot, sawdigits || negb (String.eqb s ""), "")
      /\ decimalExact b' /\ d b' = prefixValue s (d b) /\ d_neg b' = d_neg b.
Proof.
  unfold allDigits.
  induction s as [|c s IH]; intros b sd sg A Inv V.
  - exists b. cbn. rewrite orb_false_r. auto.
  - cbn [list_ascii_of_string forallb] in A.
    apply andb_true_iff in A. destruct A as [D A].
    destruct (isDigit_not_underscore c D) as [N1 N2].
    pose proof (isDigit_value c D) as Hd.
    cbn [prefixValue] in V. rewrite D in V.
    cbn [setDigits prefixValue]. rewrite N1, N2, D.
    change (String.eqb (String c s) "") with false. cbn [negb].
    rewrite orb_true_r.
    destruct Inv as [T Inv].
    assert (Dnn : 0 <= d b) by
      (destruct Inv as [[_ ->]|[Hn [L _]]];
       [lia | pose proof (Z.pow_nonneg 10 (d_nd b - 1) ltac:(lia)); lia]).
    pose proof (prefixValue_grows s (d b * 10 + (byte c - byte "0"))
                  ltac:(lia)) as G.
    destruct (Ascii.eqb c "0" && (d_nd b =? 0)) eqn:Z0.
    + apply andb_true_iff in Z0. destruct Z0 as [Zc Zn].
      apply Ascii.eqb_eq in Zc. apply Z.eqb_eq in Zn. subst c.
      assert (Hd0 : d b = 0) by (destruct Inv as [[_ E]|[Hn _]]; [exact E | lia]).
      change (byte "0" - byte "0") with 0 in *.
      assert (V0 : prefixValue s (d b * 10 + 0) = prefixValue s (d b)).
      { rewrite Hd0. reflexivity. }
      destruct (IH (Decimal (d b) (d_nd b) (d_dp b - 1) (d_neg b) (d_trunc b))
                   sd true A) as (b' & L & Inv' & Dv & Dn).
      { split; [exact T | exact Inv]. }
      { cbn [d]. rewrite <- V0. exact V. }
      exists b'. rewrite L. cbn [d d_neg] in Dv, Dn. cbn [orb].
      rewrite V0. split; [reflexivity|]. split; [exact Inv'|].
      split; [exact Dv | exact Dn].
    + destruct (Z.ltb_spec (d_nd b) 800) as [Hn|Hn].
      * destruct (IH (Decimal (d b * 10 + (byte c - byte "0")) (d_nd b + 1)
                             (d_dp b) (d_neg b) (d_trunc b)) sd true A)
          as (b' & L & Inv' & Dv & Dn).
        { split; [exact T|]. right. cbn [d d_nd].
          replace (d_nd b + 1 - 1) with (d_nd b) by lia.
          destruct Inv as [[En Ed]|[Hp [L1 L2]]].
          - rewrite En, Ed. rewrite En in Z0. cbn [Z.eqb] in Z0.
            rewrite andb_true_r in Z0.
            assert (byte c - byte "0" <> 0).
            { intros E0. apply digit_zero in E0. subst c. discriminate Z0. }
            change (10 ^ 0) with 1. change (10 ^ (0 + 1)) with 10. lia.
          - assert (P1 : 10 ^ d_nd b = 10 * 10 ^ (d_nd b - 1)).
            { replace (d_nd b) with (Z.succ (d_nd b - 1)) at 1 by lia.
              apply Z.pow_succ_r. lia. }
            assert (P2 : 10 ^ (d_nd b + 1) = 10 * 10 ^ d_nd b).
            { apply Z.pow_succ_r. lia. }
            lia. }
        { cbn [d]. exact V. }
        exists b'. rewrite L. cbn [d d_neg] in Dv, Dn. cbn [orb].
        split; [reflexivity|]. split; [exact Inv'|].
        split; [exact Dv | exact Dn].
      * exfalso. destruct Inv as [[En _]|[Hp [L1 _]]]; [lia|].
        assert (10 ^ 20 <= 10 ^ (d_nd b - 1)) by (apply Z.pow_le_mono_r; lia).
        assert (2 ^ 64 < 10 ^ 20) by reflexivity. lia.
Qed.

(** [decimal.set] on a string of digits that spell [v < 2^64], after a
    sign: [v] itself, whole, with no digit dropped. *)
Lemma floatBits_digitString (neg : bool) (u : string) :
  digitString u = true -> prefixValue u 0 < 2 ^ 64 ->
  exists b,
    setDecimal neg u = Some b
    /\ fst (floatBits b)
       = if prefixValue u 0 =? 0 then S754_zero neg
         else nearest neg (prefixValue u 0) 1.
Proof.
  intros DS V. unfold digitString in DS.
  apply andb_true_iff in DS. destruct DS as [Ne A].
  destruct (setDigits_allDigits u (Decimal 0 0 0 neg false) false false A)
    as (b' & L & [T Inv] & Dv & Dn).
  { split; [reflexivity|]. left. now split. }
  { exact V. }
  cbn [d d_neg] in Dv, Dn.
  unfold setDecimal. rewrite L, Ne. cbn [orb negb].
  eexists. split; [reflexivity|].
  unfold floatBits. cbn [d d_nd d_dp d_neg d_trunc]. rewrite T, Dv, Dn.
  set (v := prefixValue u 0) in *.
  destruct Inv as [[En Ed]|[Hp [L1 L2]]].
  - rewrite En. cbn [Z.eqb]. assert (v = 0) by lia.
    destruct (Z.eqb_spec v 0); [reflexivity | lia].
  - assert (P : 0 < 10 ^ (d_nd b' - 1)) by (apply Z.pow_pos_nonneg; lia).
    assert (N20 : d_nd b' - 1 < 20).
    { apply (Z.pow_lt_mono_r_iff 10); [lia | lia |].
      assert (2 ^ 64 < 10 ^ 20) by reflexivity. lia. }
    destruct (Z.eqb_spec (d_nd b') 0); [lia|].
    destruct (Z.ltb_spec 310 (d_nd b')); [lia|].
    destruct (Z.ltb_spec (d_nd b') (-330)); [lia|].
    rewrite Z.sub_diag. cbn [Z.leb Z.compare fst].
    change (10 ^ 0) with 1. rewrite Z.mul_1_r.
    destruct (Z.eqb_spec v 0); [lia | reflexivity].
Qed.

Lemma allDigits_digitRun (u : string) :
  allDigits u = true -> digitRun u = (String.length u, "").
Proof.
  unfold allDigits. induction u as [|c u IH]; [reflexivity|].
  cbn [list_ascii_of_string forallb digitRun String.length]. intros A.
  apply andb_true_iff in A. destruct A as [-> A]. now rewrite (IH A).
Qed.

Lemma digitString_literal (u : string) :
  digitString u = true -> unsignedLiteral u = true.
Proof.
  unfold digitString. intros DS. apply andb_true_iff in DS.
  destruct DS as [Ne A]. unfold unsignedLiteral.
  rewrite (allDigits_digitRun u A). rewrite Nat.add_0_r.
  destruct u as [|c u]; [discriminate Ne | reflexivity].
Qed.

Lemma decimal_set_sign (value : string) :
  String.eqb (dropSign value) "" = false ->
  decimal_set value = setDecimal (startsWithMinus value) (dropSign value).
Proof.
  destruct value as [|c rest]; [discriminate|]. intros _.
  unfold decimal_set, startsWithMinus. cbn [dropSign].
  destruct (Ascii.eqb_spec c "+") as [->|]; [reflexivity|].
  destruct (Ascii.eqb c "-"); reflexivity.
Qed.

(** A literal is converted by [decimal.set] and [floatBits]. *)
Lemma ParseFloat_literal_value (s : string) :
  decimalFloatLiteral s = true ->
  exists b,
    decimal_set s = Some b
    /\ ParseFloat s
       = (fst (floatBits b),
          if isInf (fst (floatBits b))
          then Some (rangeError "ParseFloat" s) else None).
Proof.
  intros L. unfold ParseFloat, atof64.
  rewrite (special_literal s L).
  destruct (readFloat_accepts s L) as (m & e & neg & tr & R). rewrite R.
  cbn [negb]. rewrite slice_to_len.
  destruct (decimal_set_accepts s L) as [b B]. rewrite B.
  exists b. split; [reflexivity|].
  pose proof (floatBits_overflow b) as O.
  destruct (floatBits b) as [f ovf]. cbn [fst snd] in *. subst ovf.
  rewrite Z.eqb_refl. cbn [negb andb]. reflexivity.
Qed.

End IntegerTexts3.

Section FurtherNumbers3.
Context `{U : Unicode}.

(** X9.  A text that converts to an integer also converts to a number,
    and to the same one where a float64 can hold it: the result is never
    an infinity, and for an integer below [2^53] in magnitude it is the
    float64 of exactly that value ([-0] gives a negative zero). *)
Theorem integer_text_as_number (value : string) (n : Z) :
  ConvertStringToType value "integer" = (Some (of_int64 n), None) ->
  exists f,
    ConvertStringToType value "number" = (Some (of_float64 f), None)
    /\ strconv.isInf f = false
    /\ (Z.abs n < 2 ^ 53 ->
        (n = 0 /\ f = S754_zero (startsWithMinus value))
        \/ exists m e, f = S754_finite (n <? 0) m e
                       /\ e <= 0 /\ Zpos m = Z.abs n * 2 ^ (- e)).
Proof.
  intros C.
  assert (O : integerOutcomeOf value = IntegerOk n).
  { pose proof (integer_value value) as V. rewrite C in V. cbn [fst] in V.
    destruct (integerOutcomeOf value); inversion V. reflexivity. }
  unfold integerOutcomeOf in O. fold (startsWithMinus value) in O.
  set (u := dropSign value) in *. set (v := prefixValue u 0) in *.
  destruct (String.eqb u "") eqn:Ne; [discriminate O|].
  destruct (Z.ltb_spec strconv.maxUint64 v) as [|Hv]; [discriminate O|].
  destruct (allDigits u) eqn:A; cbn [negb] in O; [|discriminate O].
  destruct ((minInt64 <=? (if startsWithMinus value then - v else v))
            && ((if startsWithMinus value then - v else v) <=? maxInt64)) eqn:R;
    [|discriminate O].
  inversion O as [En]. clear O.
  assert (DS : digitString u = true).
  { unfold digitString. now rewrite Ne, A. }
  assert (Vnn : 0 <= v) by (apply prefixValue_grows; lia).
  assert (V64 : v < 2 ^ 64) by (unfold strconv.maxUint64 in Hv; lia).
  assert (L : decimalFloatLiteral value = true).
  { unfold decimalFloatLiteral. now apply digitString_literal. }
  destruct (ParseFloat_literal_value value L) as (b & B & P).
  rewrite (decimal_set_sign value Ne) in B. fold u in B.
  destruct (floatBits_digitString (startsWithMinus value) u DS V64)
    as (b' & B' & F).
  rewrite B' in B. inversion B; subst b'. fold v in F.
  rewrite (convert_number value "number" eq_refl), P, F.
  destruct (Z.eqb_spec v 0) as [V0|V0].
  - cbn [strconv.isInf]. eexists. split; [reflexivity|]. split; [reflexivity|].
    intros _. left. split; [|reflexivity].
    destruct (startsWithMinus value); lia.
  - assert (Hv0 : 0 < v < 2 ^ 64) by lia.
    rewrite (nearest_whole_finite (startsWithMinus value) v Hv0).
    exists (strconv.nearest (startsWithMinus value) v 1).
    split; [reflexivity|].
    split; [exact (nearest_whole_finite (startsWithMinus value) v Hv0)|].
    intros H53. right.
    assert (Habs : Z.abs n = v) by (destruct (startsWithMinus value); lia).
    assert (Hv53 : 0 < v < 2 ^ 53) by lia.
    destruct (nearest_whole_exact (startsWithMinus value) v Hv53)
      as (m & e & Fe & He & Hm).
    exists m, e. rewrite Fe. clear Habs.
    destruct (startsWithMinus value).
    + destruct (Z.ltb_spec (- v) 0); [|lia].
      replace (Z.abs (- v)) with v by lia. now repeat split.
    + destruct (Z.ltb_spec v 0); [lia|].
      replace (Z.abs v) with v by lia. now repeat split.
Qed.

End FurtherNumbers3.

(** *** Numbers: the bytes of an accepted text *)

Lemma len_append (a b : string) : len (a ++ b) = len a + len b.
Proof.
  induction a as [|c a IH]; [unfold len; simpl; lia|].
  cbn [append]. rewrite !len_String, IH. lia.
Qed.

Lemma len_zero (s : string) : len s = 0 -> s = "".
Proof. destruct s; [reflexivity|]. unfold len. simpl. lia. Qed.

Lemma consumesTo_refl (r : string) (i : Z) : consumesTo r i r i.
Proof. exists "". repeat split. unfold len. simpl. lia. Qed.

Lemma consumesTo_step (c : ascii) (r r' : string) (i i' : Z) :
  numberByte c = true -> consumesTo r (i + 1) r' i' ->
  consumesTo (String c r) i r' i'.
Proof.
  intros N (x & -> & -> & A). exists (String c x).
  split; [reflexivity|]. split; [rewrite len_String; lia|].
  unfold allNumberBytes in *. cbn [list_ascii_of_string forallb].
  now rewrite N, A.
Qed.

Lemma consumes_refl (r : string) (i : Z) : consumes r i i.
Proof. exists r. apply consumesTo_refl. Qed.

Lemma consumes_step (c : ascii) (r : string) (i i' : Z) :
  numberByte c = true -> consumes r (i + 1) i' -> consumes (String c r) i i'.
Proof. intros N [r' C]. exists r'. now apply consumesTo_step. Qed.

Lemma consumes_after (r r' : string) (i i' i'' : Z) :
  consumesTo r i r' i' -> consumes r' i' i'' -> consumes r i i''.
Proof.
  intros (x & -> & -> & A) (r'' & y & -> & -> & B).
  exists r'', (x ++ y). split.
  - clear. induction x as [|c x IH]; [reflexivity|]. cbn [append]. now rewrite IH.
  - split; [rewrite len_append; lia|].
    unfold allNumberBytes in *. clear - A B.
    induction x as [|c x IH]; [exact B|].
    cbn [append list_ascii_of_string forallb] in *.
    apply andb_true_iff in A. destruct A as [-> A]. now apply IH.
Qed.

(** A text read to its end is made of number bytes. *)
Lemma consumes_all (s : string) : consumes s 0 (len s) -> allNumberBytes s = true.
Proof.
  intros (r' & x & -> & L & A). rewrite len_append in L.
  assert (len r' = 0) by lia. rewrite (len_zero r') by assumption.
  now rewrite append_nil_r.
Qed.

Lemma digit_numberByte (c : ascii) : isDigit c = true -> numberByte c = true.
Proof. intros D. unfold numberByte. now rewrite D. Qed.

(** The letters that the byte tests of the scanner let through. *)
Lemma lower_numberByte (c : ascii) :
  ((byte "a" <=? strconv.lower c) && (strconv.lower c <=? byte "f"))
  || (strconv.lower c =? byte "e") || (strconv.lower c =? byte "p")
  || (strconv.lower c =? byte "x") = true ->
  numberByte c = true.
Proof.
  destruct c as [[] [] [] [] [] [] [] []]; vm_compute; intros H;
    first [reflexivity | discriminate H].
Qed.

Section NumberBytes.
Import strconv.

Lemma digitLoop_consumes (base maxMantDigits : Z) (r : string) :
  forall i st,
    consumesTo r i (snd (digitLoop base maxMantDigits r i st))
               (snd (fst (digitLoop base maxMantDigits r i st))).
Proof.
  induction r as [|c r IH]; intros i st; [apply consumesTo_refl|].
  cbn [digitLoop].
  destruct (Ascii.eqb_spec c "_") as [->|_].
  { apply consumesTo_step; [reflexivity | apply IH]. }
  destruct (Ascii.eqb_spec c ".") as [->|_].
  { destruct (sawdot st); [apply consumesTo_refl|].
    apply consumesTo_step; [reflexivity | apply IH]. }
  destruct (isDigit c) eqn:D.
  { destruct (Ascii.eqb c "0" && (nd st =? 0));
      (apply consumesTo_step; [now apply digit_numberByte | apply IH]). }
  destruct ((base =? 16) && (byte "a" <=? lower c) && (lower c <=? byte "f"))
    eqn:H; [|apply consumesTo_refl].
  apply consumesTo_step; [|apply IH].
  apply lower_numberByte.
  apply andb_true_iff in H. destruct H as [H H2].
  apply andb_true_iff in H. destruct H as [_ H1]. now rewrite H1, H2.
Qed.

Lemma exponentLoop_consumes (r : string) :
  forall i e u, consumes r i (fst (fst (exponentLoop r i e u))).
Proof.
  induction r as [|c r IH]; intros i e u; [apply consumes_refl|].
  cbn [exponentLoop].
  destruct (isDigit c) eqn:D; cbn [orb].
  { assert (Ascii.eqb c "_" = false) as -> by
      (now destruct (isDigit_not_underscore c D)).
    apply consumes_step; [now apply digit_numberByte | apply IH]. }
  destruct (Ascii.eqb_spec c "_") as [->|_]; [|apply consumes_refl].
  apply consumes_step; [reflexivity | apply IH].
Qed.

Lemma readExponent_consumes (s : string) (base expChar : Z) (neg hex : bool)
      (st : scan) (i : Z) (r : string) :
  expChar = byte "e" \/ expChar = byte "p" ->
  consumes r i (indexOf (readExponent s base expChar neg hex st i r)).
Proof.
  intros HX. unfold readExponent.
  destruct (if base =? 16 then _ else _) as [dp ndMant].
  assert (Fin : forall j dp' u,
            indexOf
              (if u && negb (underscoreOK (slice_to j s))
               then (mantissa st,
                     if negb (mantissa st =? 0) then dp' - ndMant else 0,
                     neg, trunc st, hex, j, false)
               else (mantissa st,
                     if negb (mantissa st =? 0) then dp' - ndMant else 0,
                     neg, trunc st, hex, j, true)) = j).
  { intros j dp' u. destruct (u && negb (underscoreOK (slice_to j s)));
      reflexivity. }
  cbv zeta.
  destruct r as [|c r1].
  { destruct (base =? 16); [apply consumes_refl|].
    rewrite Fin. apply consumes_refl. }
  destruct (lower c =? expChar) eqn:E.
  2:{ destruct (base =? 16); [apply consumes_refl|].
      rewrite Fin. apply consumes_refl. }
  assert (Nc : numberByte c = true).
  { apply lower_numberByte. apply Z.eqb_eq in E.
    destruct HX as [HX|HX]; rewrite E, HX;
      [rewrite (Z.eqb_refl (byte "e")) | rewrite (Z.eqb_refl (byte "p"))];
      now rewrite ?orb_true_r. }
  apply consumes_step; [exact Nc|].
  destruct r1 as [|c1 r2]; [apply consumes_refl|].
  assert (Tail : forall t j e0,
            consumes t j
              (indexOf
                 match t with
                 | "" => (mantissa st, 0, neg, trunc st, hex, j, false)
                 | String c2 _ =>
                     if negb (isDigit c2)
                     then (mantissa st, 0, neg, trunc st, hex, j, false)
                     else
                       let '(i0, e, underscores) :=
                         exponentLoop t j 0 (underscores st) in
                       if underscores && negb (underscoreOK (slice_to i0 s))
                       then (mantissa st,
                             if negb (mantissa st =? 0)
                             then dp + e * e0 - ndMant else 0,
                             neg, trunc st, hex, i0, false)
                       else (mantissa st,
                             if negb (mantissa st =? 0)
                             then dp + e * e0 - ndMant else 0,
                             neg, trunc st, hex, i0, true)
                 end)).
  { intros t j e0. destruct t as [|c2 t']; [apply consumes_refl|].
    destruct (negb (isDigit c2)); [apply consumes_refl|].
    pose proof (exponentLoop_consumes (String c2 t') j 0 (underscores st)) as X.
    destruct (exponentLoop (String c2 t') j 0 (underscores st)) as [[i0 e1] u0].
    cbn [fst] in X. rewrite Fin. exact X. }
  destruct (Ascii.eqb_spec c1 "+") as [->|_].
  { apply consumes_step; [reflexivity | exact (Tail r2 (i + 1 + 1) 1)]. }
  destruct (Ascii.eqb_spec c1 "-") as [->|_].
  { apply consumes_step; [reflexivity | exact (Tail r2 (i + 1 + 1) (-1))]. }
  exact (Tail (String c1 r2) (i + 1) 1).
Qed.

Lemma readDigits_consumes (s : string) (neg : bool) (i : Z) (r : string) :
  consumes r i (indexOf (readDigits s neg i r)).
Proof.
  unfold readDigits.
  assert (Body : forall base m expChar hex j t,
            expChar = byte "e" \/ expChar = byte "p" ->
            consumes t j
              (indexOf
                 (let '(st, i0, r0) := digitLoop base m t j scan0 in
                  if negb (sawdigits st)
                  then (mantissa st, 0, neg, trunc st, hex, i0, false)
                  else readExponent s base expChar neg hex st i0 r0))).
  { intros base m expChar hex j t HX.
    pose proof (digitLoop_consumes base m t j scan0) as DL.
    destruct (digitLoop base m t j scan0) as [[st i0] r0]. cbn [fst snd] in DL.
    destruct (negb (sawdigits st)).
    - exists r0. exact DL.
    - apply (consumes_after _ _ _ _ _ DL).
      now apply readExponent_consumes. }
  destruct r as [|d0 [|d1 [|d2 r']]]; try (apply Body; now left).
  destruct (Ascii.eqb_spec d0 "0") as [->|_]; [|apply Body; now left].
  destruct (lower d1 =? byte "x") eqn:X; cbn [andb]; [|apply Body; now left].
  apply consumes_step; [reflexivity|].
  apply consumes_step.
  { apply lower_numberByte. rewrite X. now rewrite ?orb_true_r. }
  replace (i + 1 + 1) with (i + 2) by lia. apply Body. now right.
Qed.

Lemma readFloat_consumes (s : string) : consumes s 0 (indexOf (readFloat s)).
Proof.
  unfold readFloat. destruct s as [|c0 s1]; [apply consumes_refl|].
  destruct (Ascii.eqb_spec c0 "+") as [->|_].
  { apply consumes_step; [reflexivity | apply readDigits_consumes]. }
  destruct (Ascii.eqb_spec c0 "-") as [->|_].
  { apply consumes_step; [reflexivity | apply readDigits_consumes]. }
  apply readDigits_consumes.
Qed.

End NumberBytes.

Lemma forallb_lowerASCII (P : ascii -> bool) (v : string) :
  forallb P (list_ascii_of_string (strings.lowerASCII v))
  = forallb (fun c => P (strings.lowerByte c)) (list_ascii_of_string v).
Proof.
  induction v as [|c v IH]; [reflexivity|].
  cbn [strings.lowerASCII list_ascii_of_string forallb]. now rewrite IH.
Qed.

(** A text that matches a token of number letters is made of number
    bytes. *)
Lemma matches_numberBytes (v token : string) :
  lowerCaseText token = true ->
  forallb (fun q => holds q "abcdefinptxy") (list_ascii_of_string token) = true ->
  matchesIgnoringCase v token = true ->
  allNumberBytes v = true.
Proof.
  intros L T M. rewrite <- (lowerASCII_matches v token L) in M.
  apply String.eqb_eq in M. rewrite <- M, forallb_lowerASCII in T.
  unfold allNumberBytes. rewrite forallb_forall in *.
  intros c I. specialize (T c I). unfold numberByte. unfold holds in T.
  rewrite T. apply orb_true_r.
Qed.

Lemma allNumberBytes_dropSign (s : string) :
  allNumberBytes (dropSign s) = true -> allNumberBytes s = true.
Proof.
  destruct s as [|c s]; [trivial|]. cbn [dropSign].
  destruct (Ascii.eqb_spec c "+") as [->|_]; cbn [orb].
  { intros A. unfold allNumberBytes in *.
    cbn [list_ascii_of_string forallb]. now rewrite A. }
  destruct (Ascii.eqb_spec c "-") as [->|_]; [|trivial].
  intros A. unfold allNumberBytes in *.
  cbn [list_ascii_of_string forallb]. now rewrite A.
Qed.

Lemma spelled_numberBytes (s : string) :
  spellsInfinity s = true \/ spellsNaN s = true -> allNumberBytes s = true.
Proof.
  unfold spellsInfinity, spellsNaN. intros [I|N].
  - apply allNumberBytes_dropSign. apply orb_true_iff in I.
    destruct I as [I|I];
      [apply (matches_numberBytes _ "inf") | apply (matches_numberBytes _ "infinity")];
      trivial.
  - now apply (matches_numberBytes _ "nan").
Qed.

Section NumberBytesOfParseFloat.
Import strconv.

(** Whatever [ParseFloat] does not reject as bad syntax is made of number
    bytes. *)
Lemma ParseFloat_bytes (s : string) (f : float64) (err : option error) :
  ParseFloat s = (f, err) ->
  err <> Some (syntaxError "ParseFloat" s) ->
  allNumberBytes s = true.
Proof.
  pose proof (readFloat_consumes s) as RC.
  unfold ParseFloat, atof64.
  destruct (special s) as [[val n]|] eqn:SP.
  - cbn [negb andb]. rewrite andb_true_r.
    destruct (Z.eqb_spec n (len s)) as [->|]; cbn [negb]; intros E NE;
      inversion E; subst.
    + apply spelled_numberBytes.
      destruct (special_spelled s _ SP) as [[_ I]|[_ N]]; auto.
    + now contradiction NE.
  - destruct (readFloat s) as [[[[[[m ex] neg] tr] hex] n] ok].
    cbn [indexOf fst snd] in RC.
    destruct (Z.eqb_spec n (len s)) as [->|Hn].
    { intros _ _. now apply consumes_all. }
    apply Z.eqb_neq in Hn.
    destruct ok; cbn [negb andb].
    + destruct hex.
      * unfold atofHex.
        match goal with
        | |- context [isInf ?x] => destruct (isInf x)
        end.
        -- change (error_eqb ErrRange ErrSyntax) with false. cbn [negb andb].
           rewrite Hn.
           cbn [negb andb]. intros E NE; inversion E; subst. now contradiction NE.
        -- cbn [negb andb]. rewrite Hn.
           cbn [negb andb]. intros E NE; inversion E; subst. now contradiction NE.
      * destruct (decimal_set (slice_to n s)) as [b|].
        -- destruct (floatBits b) as [g ovf]. destruct ovf.
           ++ change (error_eqb ErrRange ErrSyntax) with false. cbn [negb andb].
              rewrite Hn.
           cbn [negb andb]. intros E NE; inversion E; subst. now contradiction NE.
           ++ cbn [negb andb]. rewrite Hn.
           cbn [negb andb]. intros E NE; inversion E; subst. now contradiction NE.
        -- change (error_eqb ErrSyntax ErrSyntax) with true. cbn [negb andb].
           rewrite Hn.
           cbn [negb andb]. intros E NE; inversion E; subst. now contradiction NE.
    + change (error_eqb ErrSyntax ErrSyntax) with true. cbn [negb andb].
      rewrite Hn.
           cbn [negb andb]. intros E NE; inversion E; subst. now contradiction NE.
Qed.

End NumberBytesOfParseFloat.

Lemma whitespace_lower (c : ascii) :
  whitespace (strings.lowerByte c) = whitespace c.
Proof. destruct c as [[] [] [] [] [] [] [] []]; reflexivity. Qed.

Lemma whitespace_not_numberByte (c : ascii) :
  whitespace c = true -> numberByte c = false.
Proof.
  destruct c as [[] [] [] [] [] [] [] []]; vm_compute; intros H;
    first [reflexivity | discriminate H].
Qed.

Lemma whitespace_not_digit (c : ascii) : whitespace c = true -> isDigit c = false.
Proof.
  intros W. apply whitespace_not_numberByte in W. unfold numberByte in W.
  now destruct (isDigit c).
Qed.

Lemma whitespace_allNumberBytes (s : string) :
  existsb whitespace (list_ascii_of_string s) = true -> allNumberBytes s = false.
Proof.
  unfold allNumberBytes. induction s as [|c s IH]; [discriminate|].
  cbn [list_ascii_of_string existsb forallb]. intros H.
  apply orb_true_iff in H. destruct H as [H|H].
  - now rewrite (whitespace_not_numberByte c H).
  - rewrite (IH H). apply andb_false_r.
Qed.

Lemma whitespace_allDigits (s : string) :
  existsb whitespace (list_ascii_of_string s) = true -> allDigits s = false.
Proof.
  unfold allDigits. induction s as [|c s IH]; [discriminate|].
  cbn [list_ascii_of_string existsb forallb]. intros H.
  apply orb_true_iff in H. destruct H as [H|H].
  - now rewrite (whitespace_not_digit c H).
  - rewrite (IH H). apply andb_false_r.
Qed.

Lemma whitespace_dropSign (s : string) :
  existsb whitespace (list_ascii_of_string s) = true ->
  existsb whitespace (list_ascii_of_string (dropSign s)) = true.
Proof.
  destruct s as [|c s]; [trivial|]. cbn [dropSign].
  destruct (Ascii.eqb_spec c "+") as [->|_]; [trivial|].
  destruct (Ascii.eqb_spec c "-") as [->|_]; trivial.
Qed.

Lemma whitespace_lowerASCII (s : string) :
  existsb whitespace (list_ascii_of_string (strings.lowerASCII s))
  = existsb whitespace (list_ascii_of_string s).
Proof.
  induction s as [|c s IH]; [reflexivity|].
  cbn [strings.lowerASCII list_ascii_of_string existsb].
  now rewrite whitespace_lower, IH.
Qed.

Section WhiteSpace.
Context `{U : Unicode}.

(** X10.  A number is made of number bytes: when the value holds any other
    byte -- a space, a comma, a currency sign, a letter such as [g] -- the
    conversion to [number] fails, and the cause is [ParseFloat]'s syntax
    error about the whole value. *)
Theorem number_bytes (value : string) :
  allNumberBytes value = false ->
  exists e,
    ConvertStringToType value "number" = (None, Some e)
    /\ Unwrap e = Some (strconv.syntaxError "ParseFloat" value).
Proof.
  intros A. rewrite (convert_number value "number" eq_refl).
  destruct (strconv.ParseFloat value) as [f [err|]] eqn:P.
  - eexists. split; [reflexivity|]. cbn [Unwrap]. f_equal.
    destruct (ParseFloat_error value f err P) as [->| ->]; [reflexivity|].
    assert (allNumberBytes value = true); [|congruence].
    apply (ParseFloat_bytes value f _ P). discriminate.
  - assert (allNumberBytes value = true); [|congruence].
    apply (ParseFloat_bytes value f _ P). discriminate.
Qed.

(** X11.  Nothing is trimmed: a value that holds a space, a tab, a line
    feed or a carriage return anywhere, also in front or at the end,
    converts neither to [integer] nor to [number], and when it is ASCII
    text not to [boolean] either. *)
Theorem whitespace_is_not_trimmed (value : string) :
  existsb whitespace (list_ascii_of_string value) = true ->
  fst (ConvertStringToType value "integer") = None
  /\ fst (ConvertStringToType value "number") = None
  /\ (isASCII value = true -> fst (ConvertStringToType value "boolean") = None).
Proof.
  intros W. split; [|split].
  - rewrite integer_value. unfold integerOutcomeOf. cbv zeta.
    rewrite (whitespace_allDigits _ (whitespace_dropSign value W)).
    cbn [negb].
    destruct (String.eqb (dropSign value) ""); [reflexivity|].
    destruct (strconv.maxUint64 <? prefixValue (dropSign value) 0); reflexivity.
  - rewrite (convert_number value "number" eq_refl).
    destruct (strconv.ParseFloat value) as [f [err|]] eqn:P; [reflexivity|].
    pose proof (ParseFloat_bytes value f _ P) as B.
    rewrite (whitespace_allNumberBytes value W) in B.
    discriminate B. discriminate.
  - intros A. rewrite (convert_boolean value "boolean" eq_refl).
    rewrite (ToLower_ASCII value A).
    assert (N : forall tokens,
               forallb (fun t => negb (existsb whitespace (list_ascii_of_string t)))
                       tokens = true ->
               oneOf (strings.lowerASCII value) tokens = false).
    { intros tokens T. destruct (oneOf _ tokens) eqn:O; [|reflexivity].
      apply oneOf_In in O. rewrite forallb_forall in T.
      specialize (T _ O). rewrite whitespace_lowerASCII, W in T.
      discriminate T. }
    rewrite (N truthy eq_refl), (N falsy eq_refl). reflexivity.
Qed.

End WhiteSpace.


(** The examples below run on [asciiTables]. *)
#[local] Existing Instance asciiTables.

Lemma enum_not_supported :
  ~ In "enum" [""; "string"; "number"; "integer"; "boolean"].
Proof.
  cbn [In]. intros H.
  repeat (destruct H as [H|H]; [discriminate H|]). exact H.
Defined.

Lemma unsupported_type_witness :
  ~ In "enum" [""; "string"; "number"; "integer"; "boolean"]
  /\ exists e,
       ConvertStringToType (U := asciiTables) "x" "enum" = (None, Some e)
       /\ UnsupportedTypeError "enum" e
       /\ embeds "enum" (Error e).
Proof.
  split; [exact enum_not_supported|].
  exact (unsupported_type (U := asciiTables) "x" "enum" enum_not_supported).
Defined.





(** The further properties, on concrete values. *)
Lemma integer_sign_witness :
  digitString "9223372036854775808" = true
  /\ fst (ConvertStringToType (U := asciiTables) "9223372036854775808" "integer")
     = None
  /\ fst (ConvertStringToType (U := asciiTables) "-9223372036854775808" "integer")
     = Some (of_int64 (-9223372036854775808)).
Proof.
  split; [reflexivity|].
  pose proof (integer_sign (U := asciiTables) "9223372036854775808" eq_refl) as H.
  cbv zeta in H. destruct H as (A & _ & C).
  split; [exact A | exact C].
Defined.

Lemma integer_leading_zero_witness :
  digitString "42" = true
  /\ fst (ConvertStringToType (U := asciiTables) "042" "integer")
     = Some (of_int64 42).
Proof.
  split; [reflexivity|].
  destruct (integer_leading_zero (U := asciiTables) "42" eq_refl) as (A & _).
  exact A.
Defined.

Lemma boolean_ignores_case_witness :
  isASCII "YeS" = true /\ isASCII "yes" = true /\ equalFold "YeS" "yes" = true
  /\ fst (ConvertStringToType (U := asciiTables) "YeS" "boolean")
     = fst (ConvertStringToType (U := asciiTables) "yes" "boolean").
Proof.
  split; [reflexivity|]. split; [reflexivity|]. split; [reflexivity|].
  exact (boolean_ignores_case (U := asciiTables) "YeS" "yes"
                              eq_refl eq_refl eq_refl).
Defined.

Lemma failure_cause_witness :
  exists e,
    ConvertStringToType (U := asciiTables) "1e999" "number" = (None, Some e)
    /\ match Unwrap e with
       | Some cause =>
           ("number" = "number"
            /\ (cause = NumError "ParseFloat" "1e999" strconv.ErrSyntax
                \/ cause = NumError "ParseFloat" "1e999" strconv.ErrRange))
           \/ ("number" = "integer"
               /\ (cause = NumError "ParseInt" "1e999" strconv.ErrSyntax
                   \/ cause = NumError "ParseInt" "1e999" strconv.ErrRange))
       | None =>
           "number" = "boolean"
           \/ ~ In "number" [""; "string"; "number"; "integer"; "boolean"]
       end.
Proof.
  eexists. split; [reflexivity|].
  exact (failure_cause (U := asciiTables) "1e999" "number" _ eq_refl).
Defined.

Lemma number_special_only_spelled_witness :
  ConvertStringToType (U := asciiTables) "-Inf" "number"
  = (Some (of_float64 (S754_infinity true)), None)
  /\ spellsInfinity "-Inf" = true.
Proof.
  split; [reflexivity|].
  destruct (number_special_only_spelled (U := asciiTables) "-Inf"
              (S754_infinity true) eq_refl) as [I _].
  exact (proj1 (I eq_refl)).
Defined.

Lemma integer_text_as_number_witness :
  ConvertStringToType (U := asciiTables) "42" "integer"
  = (Some (of_int64 42), None)
  /\ exists f,
       ConvertStringToType (U := asciiTables) "42" "number"
       = (Some (of_float64 f), None)
       /\ strconv.isInf f = false
       /\ (Z.abs 42 < 2 ^ 53 ->
           (42 = 0 /\ f = S754_zero (startsWithMinus "42"))
           \/ exists m e, f = S754_finite (42 <? 0) m e
                          /\ e <= 0 /\ Zpos m = Z.abs 42 * 2 ^ (- e)).
Proof.
  split; [reflexivity|].
  exact (integer_text_as_number (U := asciiTables) "42" 42 eq_refl).
Defined.

Lemma number_bytes_witness :
  allNumberBytes "$5" = false
  /\ exists e,
       ConvertStringToType (U := asciiTables) "$5" "number" = (None, Some e)
       /\ Unwrap e = Some (strconv.syntaxError "ParseFloat" "$5").
Proof.
  split; [reflexivity|].
  exact (number_bytes (U := asciiTables) "$5" eq_refl).
Defined.

Lemma whitespace_is_not_trimmed_witness :
  existsb whitespace (list_ascii_of_string " 42") = true
  /\ fst (ConvertStringToType (U := asciiTables) " 42" "integer") = None
  /\ fst (ConvertStringToType (U := asciiTables) " 42" "number") = None
  /\ fst (ConvertStringToType (U := asciiTables) " 42" "boolean") = None.
Proof.
  split; [reflexivity|].
  destruct (whitespace_is_not_trimmed (U := asciiTables) " 42" eq_refl)
    as (A & B & C).
  split; [exact A|]. split; [exact B | exact (C eq_refl)].
Defined.
